(** * NebulaZone: file intake (DropZone) and the worker channel

    A shallow embedding of [src/components/DropZone.tsx] and
    [src/utils/worker.ts].  React state, the callbacks handed in through the
    props and the Web Worker are made explicit: a handler is a function from
    the props of the render that created it, the component state and an
    event to the next state and the trace of effects it performs.  The
    mounted component, with the handlers [useCallback] keeps from earlier
    renders, follows the handlers. *)

From Stdlib Require Import NArith QArith Ascii.
From stdpp Require Import base list strings pretty.


(** ** Files, size strings and the props of the component *)

Module DropZone.

(** [export type ByteUnits = 'B' | 'KB' | 'MB' | 'GB'] *)
Inductive ByteUnits := B | KB | MB | GB.

(** The template literal type [`${number}${ByteUnits}`] of the three size
    props, for a natural amount. *)
Record SizeString := { amount : N; sizeUnit : ByteUnits }.

(** Modelled from the spec: the size parser of utils/fileValidation is
    missing; "binary multipliers (1 KB = 1024 B, 1 MB = 1024² B,
    1 GB = 1024³ B)". *)
Definition toBytes (s : SizeString) : N :=
  (amount s * match sizeUnit s with
              | B => 1
              | KB => 1024
              | MB => 1024 * 1024
              | GB => 1024 * 1024 * 1024
              end)%N.

(** A [File] of the platform.  Files are objects: [ref] is the identity of
    the object, the other fields are the attributes validation reads. *)
Record File := { ref : nat; fileName : string; fileType : string; fileSize : N }.

#[global] Instance File_eq_dec : EqDecision File.
Proof. solve_decision. Defined.

(** [panelLayout?: 'integrated' | 'compact' | 'circle'] *)
Inductive PanelLayout := integrated | compact | circle.

(** [DropzoneProps] after the defaults of the parameter list are applied.
    An optional callback is represented by whether it was handed in; what it
    is called with is recorded in the effect trace below. *)
Record DropzoneProps := {
  accept : option string;
  allowMultiple : bool;
  maxFileSize : option SizeString;
  minFileSize : option SizeString;
  maxTotalFileSize : option SizeString;
  disabled : bool;
  panelLayout : PanelLayout;
  panelAspectRatio : option string;
  onDrop : bool;
  onDropAccepted : bool;
  onDropRejected : bool;
  onDragEnter : bool
}.

(** The kinds of [ValidationError] (spec, data model). *)
Inductive ErrorKind :=
  TypeRejected | SizeTooSmall | SizeTooLarge | TotalSizeExceeded | MultipleNotAllowed.

Record ValidationError := { errorFile : File; kind : ErrorKind }.

(** A drop / change / dragenter event, reduced to the candidate files it
    carries, in the order the platform lists them. *)
Record IntakeEvent := { eventFiles : list File }.

(** What [checkFileAcceptance] returns. *)
Record Acceptance := { acceptedFiles : list File; rejectedFiles : list File }.

(** What [filterValidFiles] returns. *)
Record Filtered := { files : list File; accepted : list File; rejected : list File }.

(** The three pieces of component state the handlers touch:
    [useState(false)] twice and [useRef<File[]>([])]. *)
Record State := { dragEnter : bool; hasError : bool; draggedRejectedFiles : list File }.

Definition initialState : State :=
  {| dragEnter := false; hasError := false; draggedRejectedFiles := [] |}.

(** Everything a handler does besides updating [State]. *)
Inductive Effect :=
| CancelDefaultEvent
| OnDrop (all acc rej : list File) (errors : list ValidationError)
| OnDropAccepted (acc : list File)
| OnDropRejected (rej : list File)
| OnDragEnter.

Section Intake.

(** The accept-pattern matcher of utils/fileValidation is missing; it is a
    parameter: [matches spec f] says whether file [f] matches the non-absent
    accept string [spec]. *)
Variable matches : string → File → bool.

(** "Undefined or empty spec matches every file." *)
Definition typeOk (acc : option string) (f : File) : bool :=
  match acc with
  | None => true
  | Some spec => matches spec f
  end.

(** The size is below the configured minimum; "unset = unconstrained". *)
Definition tooSmall (minSize : option SizeString) (f : File) : bool :=
  match minSize with
  | None => false
  | Some m => (fileSize f <? toBytes m)%N
  end.

(** The size is above the configured maximum. *)
Definition tooLarge (maxSize : option SizeString) (f : File) : bool :=
  match maxSize with
  | None => false
  | Some m => (toBytes m <? fileSize f)%N
  end.

(** Step 1 of the spec's validation algorithm, for one file. *)
Definition fileValid (acc : option string) (maxSize minSize : option SizeString)
    (f : File) : bool :=
  typeOk acc f && negb (tooSmall minSize f) && negb (tooLarge maxSize f).

(** Modelled from the spec: [checkFileAcceptance] of utils/fileValidation is
    missing.  "Per file: reject ... if [matches] fails; else reject ... if
    size is outside [minSize, maxSize]; else tentatively accept", applied in
    input order.  The arguments are in the order of the call in
    [filterValidFiles]: accept, maxFileSize, minFileSize. *)
Fixpoint checkFileAcceptance (fileList : list File) (acc : option string)
    (maxSize minSize : option SizeString) : Acceptance :=
  match fileList with
  | [] => {| acceptedFiles := []; rejectedFiles := [] |}
  | f :: rest =>
      let r := checkFileAcceptance rest acc maxSize minSize in
      if fileValid acc maxSize minSize f
      then {| acceptedFiles := f :: acceptedFiles r; rejectedFiles := rejectedFiles r |}
      else {| acceptedFiles := acceptedFiles r; rejectedFiles := f :: rejectedFiles r |}
  end.

(** Modelled from the spec: [getValidationErrors] of utils/fileValidation is
    missing.  "Build errors — one entry per rejected file describing the
    specific failing rule(s) detected in steps 1–3".  The call in
    [handleDrop] passes the rejected files, accept, minFileSize and
    maxFileSize, so the rule is recomputed per file: the step-1 rules in
    their order, and for a rejected file that passes all of them the
    cardinality rule of step 2 (the total-size bound is not an argument). *)
Definition errorKindOf (acc : option string) (minSize maxSize : option SizeString)
    (f : File) : ErrorKind :=
  if negb (typeOk acc f) then TypeRejected
  else if tooSmall minSize f then SizeTooSmall
  else if tooLarge maxSize f then SizeTooLarge
  else MultipleNotAllowed.

(** Modelled from the spec: one entry per rejected file, in the order of the
    rejected list, arguments in the order of the call in [handleDrop]. *)
Definition getValidationErrors (rejectedList : list File) (acc : option string)
    (minSize maxSize : option SizeString) : list ValidationError :=
  map (λ f, {| errorFile := f; kind := errorKindOf acc minSize maxSize f |}) rejectedList.

(** [getAllDragedFiles(event)]; the helper is missing, the event is reduced
    to the files it lists. *)
Definition getAllDragedFiles (event : IntakeEvent) : list File := eventFiles event.

(** [filterValidFiles], DropZone.tsx lines 92-117.  [rejectedFiles.push
    (...remainingFiles)] appends to the array [checkFileAcceptance]
    returned. *)
Definition filterValidFiles (p : DropzoneProps) (event : IntakeEvent) : Filtered :=
  let fileList := getAllDragedFiles event in
  let r := checkFileAcceptance fileList (accept p) (maxFileSize p) (minFileSize p) in
  match allowMultiple p, acceptedFiles r with
  | false, acceptedFile :: remainingFiles =>
      {| files := fileList;
         accepted := [acceptedFile];
         rejected := rejectedFiles r ++ remainingFiles |}
  | _, _ =>
      {| files := fileList; accepted := acceptedFiles r; rejected := rejectedFiles r |}
  end.

(** [if (c) effect] *)
Definition when (c : bool) (e : Effect) : list Effect := if c then [e] else [].

(** JavaScript truthiness of [xs.length]. *)
Definition nonEmpty {A} (xs : list A) : bool :=
  match xs with [] => false | _ :: _ => true end.

(** [handleDrop], DropZone.tsx lines 119-150; it is both the document's
    'drop' listener and the [onChange] of the file input. *)
Definition handleDrop (p : DropzoneProps) (st : State) (event : IntakeEvent)
    : State * list Effect :=
  if disabled p then (st, [CancelDefaultEvent])
  else
    let r := filterValidFiles p event in
    let errors :=
      getValidationErrors (rejected r) (accept p) (minFileSize p) (maxFileSize p) in
    ({| dragEnter := false; hasError := false; draggedRejectedFiles := [] |},
     CancelDefaultEvent
       :: when (onDrop p) (OnDrop (files r) (accepted r) (rejected r) errors)
       ++ when (nonEmpty (accepted r) && onDropAccepted p) (OnDropAccepted (accepted r))
       ++ when (nonEmpty (rejected r) && onDropRejected p) (OnDropRejected (rejected r))).

(** [handleDragEnter], lines 152-166. *)
Definition handleDragEnter (p : DropzoneProps) (st : State) (event : IntakeEvent)
    : State * list Effect :=
  if disabled p then (st, [CancelDefaultEvent])
  else
    let r := filterValidFiles p event in
    ({| dragEnter := dragEnter st;
        hasError := hasError st;
        draggedRejectedFiles :=
          if nonEmpty (rejected r) then rejected r else draggedRejectedFiles st |},
     CancelDefaultEvent :: when (onDragEnter p) OnDragEnter).

(** [handleDragEnterDropZone], lines 187-198. *)
Definition handleDragEnterDropZone (p : DropzoneProps) (st : State)
    : State * list Effect :=
  if disabled p then (st, [CancelDefaultEvent])
  else
    ({| dragEnter := true;
        hasError := if nonEmpty (draggedRejectedFiles st) then true else hasError st;
        draggedRejectedFiles := draggedRejectedFiles st |},
     [CancelDefaultEvent]).

End Intake.

(** [disabled={false}] on otherwise the same props. *)
Definition enabled (p : DropzoneProps) : DropzoneProps :=
  {| accept := accept p; allowMultiple := allowMultiple p;
     maxFileSize := maxFileSize p; minFileSize := minFileSize p;
     maxTotalFileSize := maxTotalFileSize p;
     disabled := false; panelLayout := panelLayout p;
     panelAspectRatio := panelAspectRatio p;
     onDrop := onDrop p; onDropAccepted := onDropAccepted p;
     onDropRejected := onDropRejected p; onDragEnter := onDragEnter p |}.

(** *** The other handlers, and events dispatched to handlers *)

(** The optional callbacks of [DropzoneProps] that the drop path does not
    read, again by whether they were handed in. *)
Record OtherCallbacks := { onDragLeave : bool; onDragOver : bool; onClick : bool }.

(** What the other handlers do: the three callbacks, and
    [inputRef.current.click()]. *)
Inductive OtherEffect := OnDragLeave | OnDragOver | InputClick | OnClick.

(** An effect of any handler. *)
Definition Action : Type := Effect + OtherEffect.

(** [if (c) effect], for the other effects. *)
Definition whenOther (c : bool) (e : OtherEffect) : list Action :=
  if c then [inr e] else [].

(** [handleDragLeave], DropZone.tsx lines 168-176. *)
Definition handleDragLeave (p : DropzoneProps) (q : OtherCallbacks) (st : State)
    : State * list Action :=
  if disabled p then (st, [inl CancelDefaultEvent])
  else (st, inl CancelDefaultEvent :: whenOther (onDragLeave q) OnDragLeave).

(** [handleDragOver], lines 178-185. *)
Definition handleDragOver (p : DropzoneProps) (q : OtherCallbacks) (st : State)
    : State * list Action :=
  if disabled p then (st, [inl CancelDefaultEvent])
  else (st, inl CancelDefaultEvent :: whenOther (onDragOver q) OnDragOver).

(** [handleDragLeaveDropZone], lines 200-213; [toChild] is
    [event.currentTarget.contains(event.relatedTarget)]. *)
Definition handleDragLeaveDropZone (p : DropzoneProps) (st : State) (toChild : bool)
    : State * list Action :=
  if disabled p then (st, [inl CancelDefaultEvent])
  else if toChild then (st, [inl CancelDefaultEvent])
  else
    ({| dragEnter := false; hasError := false;
        draggedRejectedFiles := draggedRejectedFiles st |},
     [inl CancelDefaultEvent]).

(** [handleClick], lines 222-232; [inputMounted] is [inputRef.current]
    being set. *)
Definition handleClick (p : DropzoneProps) (q : OtherCallbacks) (st : State)
    (inputMounted : bool) : State * list Action :=
  if disabled p then (st, [])
  else (st, whenOther inputMounted InputClick ++ whenOther (onClick q) OnClick).

(** The events the component listens to: on the document ('drop',
    'dragenter', 'dragleave', 'dragover'), on the file input (change), and
    on the zone itself (dragstart, dragenter, dragleave, click). *)
Inductive UIEvent :=
| DocDrop (e : IntakeEvent)
| InputChange (e : IntakeEvent)
| DocDragEnter (e : IntakeEvent)
| DocDragLeave
| DocDragOver
| ZoneDragStart
| ZoneDragEnter
| ZoneDragLeave (toChild : bool)
| ZoneClick (inputMounted : bool).

(** A drop of files, by either route. *)
Definition isDrop (ev : UIEvent) : bool :=
  match ev with
  | DocDrop _ | InputChange _ => true
  | _ => false
  end.

(** The error markup is up only during a drag over the zone with a
    rejected file on record. *)
Definition errorConsistent (st : State) : Prop :=
  hasError st = true → dragEnter st = true ∧ draggedRejectedFiles st ≠ [].

(** The same props with another [allowMultiple]. *)
Definition withAllowMultiple (b : bool) (p : DropzoneProps) : DropzoneProps :=
  {| accept := accept p; allowMultiple := b;
     maxFileSize := maxFileSize p; minFileSize := minFileSize p;
     maxTotalFileSize := maxTotalFileSize p;
     disabled := disabled p; panelLayout := panelLayout p;
     panelAspectRatio := panelAspectRatio p;
     onDrop := onDrop p; onDropAccepted := onDropAccepted p;
     onDropRejected := onDropRejected p; onDragEnter := onDragEnter p |}.

(** **** Renders and memoised handlers *)

(** The identity of the functions handed in as callback props that occur in
    a dependency list: two renders pass the same function for a prop when
    the tokens are equal. *)
Record CallbackIds := {
  onDropId : nat; onDropAcceptedId : nat; onDropRejectedId : nat;
  onDragEnterId : nat; onDragLeaveId : nat; onDragOverId : nat
}.

(** What one call of the component function is given. *)
Record Render := { props : DropzoneProps; others : OtherCallbacks; ids : CallbackIds }.

(** A callback prop as a dependency: [undefined], or a function. *)
Definition callbackDep (provided : bool) (token : nat) : option nat :=
  if provided then Some token else None.

(** The dependency lists of the [useCallback] calls that can change: lines
    116 (the ref object [draggedRejectedFiles] is the same in every
    render), 149, 165, 175 and 184.  Those of lines 197 and 212 hold the
    ref object and a state setter and never change. *)
Definition filterDeps (r : Render) : option string * bool :=
  (accept (props r), allowMultiple (props r)).

Definition dropDeps (r : Render)
    : bool * option nat * option string * option nat * option nat :=
  (disabled (props r),
   callbackDep (onDrop (props r)) (onDropId (ids r)),
   accept (props r),
   callbackDep (onDropAccepted (props r)) (onDropAcceptedId (ids r)),
   callbackDep (onDropRejected (props r)) (onDropRejectedId (ids r))).

Definition dragEnterDeps (r : Render) (dragEnterState : bool)
    : bool * bool * option nat :=
  (disabled (props r), dragEnterState,
   callbackDep (onDragEnter (props r)) (onDragEnterId (ids r))).

Definition dragLeaveDeps (r : Render) : bool * option nat :=
  (disabled (props r), callbackDep (onDragLeave (others r)) (onDragLeaveId (ids r))).

Definition dragOverDeps (r : Render) : bool * option nat :=
  (disabled (props r), callbackDep (onDragOver (others r)) (onDragOverId (ids r))).

(** [useCallback(fn, deps)] on a re-render: the function kept from before
    when the dependencies are the same, the new one otherwise. *)
Definition useCallback {D E : Type} `{EqDecision D}
    (kept : E) (keptDeps deps : D) (fn : E) : E :=
  if decide (keptDeps = deps) then kept else fn.

(** The memoised handlers, each given by the render that created it and so
    by the props it closes over.  [handleDrop] and [handleDragEnter] also
    close over the [filterValidFiles] of that render, which may itself be
    one kept from an earlier render; [handleDragEnter] has the [dragEnter]
    state among its dependencies.  [latest] is the last render: what is
    not memoised ([handleClick]) is of that render. *)
Record Memo := {
  filterOf : Render;
  dropOf : Render * Render;
  dragEnterOf : Render * Render * bool;
  dragLeaveOf : Render;
  dragOverOf : Render;
  zoneEnterOf : Render;
  zoneLeaveOf : Render;
  latest : Render
}.

(** The first call of the component function; the state is the initial
    one. *)
Definition mount (r : Render) : Memo :=
  {| filterOf := r; dropOf := (r, r); dragEnterOf := (r, r, false);
     dragLeaveOf := r; dragOverOf := r; zoneEnterOf := r; zoneLeaveOf := r;
     latest := r |}.

(** A later call of the component function, with the component state [st]
    and what is given as [r]. *)
Definition render (m : Memo) (st : State) (r : Render) : Memo :=
  let f := useCallback (filterOf m) (filterDeps (filterOf m)) (filterDeps r) r in
  {| filterOf := f;
     dropOf :=
       useCallback (dropOf m) (dropDeps (snd (dropOf m))) (dropDeps r) (f, r);
     dragEnterOf :=
       useCallback (dragEnterOf m)
         (dragEnterDeps (snd (fst (dragEnterOf m))) (snd (dragEnterOf m)))
         (dragEnterDeps r (dragEnter st))
         (f, r, dragEnter st);
     dragLeaveOf :=
       useCallback (dragLeaveOf m) (dragLeaveDeps (dragLeaveOf m)) (dragLeaveDeps r) r;
     dragOverOf :=
       useCallback (dragOverOf m) (dragOverDeps (dragOverOf m)) (dragOverDeps r) r;
     zoneEnterOf := zoneEnterOf m;
     zoneLeaveOf := zoneLeaveOf m;
     latest := r |}.

(** A mounted component: its memoised handlers and its state. *)
Record Mounted := { memo : Memo; ui : State }.

Definition mounted (r : Render) : Mounted :=
  {| memo := mount r; ui := initialState |}.

(** What happens to a mounted component: the parent renders it again, or an
    event arrives. *)
Inductive Step := Rerender (r : Render) | Happens (ev : UIEvent).

(** A step that is a drop, and a step that renders the zone enabled. *)
Definition isDropStep (s : Step) : bool :=
  match s with
  | Happens ev => isDrop ev
  | Rerender _ => false
  end.

Definition rendersDisabled (s : Step) : bool :=
  match s with
  | Rerender r => disabled (props r)
  | Happens _ => true
  end.

Definition rendersSingle (s : Step) : bool :=
  match s with
  | Rerender r => negb (allowMultiple (props r))
  | Happens _ => true
  end.

(** The handlers of a mounted component that was stepped at least once, or
    not at all, have the dependencies of the last render. *)
Definition inSync (m : Memo) : Prop :=
  dropDeps (snd (dropOf m)) = dropDeps (latest m)
  ∧ disabled (props (snd (fst (dragEnterOf m)))) = disabled (props (latest m))
  ∧ dragLeaveDeps (dragLeaveOf m) = dragLeaveDeps (latest m)
  ∧ dragOverDeps (dragOverOf m) = dragOverDeps (latest m).


(** Every handler was created in a render with [disabled]. *)
Definition allDisabled (m : Memo) : Prop :=
  disabled (props (snd (dropOf m))) = true
  ∧ disabled (props (snd (fst (dragEnterOf m)))) = true
  ∧ disabled (props (dragLeaveOf m)) = true
  ∧ disabled (props (dragOverOf m)) = true
  ∧ disabled (props (zoneEnterOf m)) = true
  ∧ disabled (props (zoneLeaveOf m)) = true
  ∧ disabled (props (latest m)) = true.


(** The [filterValidFiles] kept, the one [handleDrop] closes over and the
    last render have [allowMultiple] false. *)
Definition allSingle (m : Memo) : Prop :=
  allowMultiple (props (filterOf m)) = false
  ∧ allowMultiple (props (fst (dropOf m))) = false
  ∧ allowMultiple (props (latest m)) = false.

Section Dispatch.

Variable matches : string → File → bool.

(** The effects of the drop-path handlers among all actions. *)
Definition lift (r : State * list Effect) : State * list Action :=
  (fst r, map inl (snd r)).

(** [handleDrop] as created in a render with props [p], closing over the
    [filterValidFiles] created with props [pf] (lines 119-150). *)
Definition handleDropOf (pf p : DropzoneProps) (st : State) (event : IntakeEvent)
    : State * list Effect :=
  if disabled p then (st, [CancelDefaultEvent])
  else
    let r := filterValidFiles matches pf event in
    let errors :=
      getValidationErrors matches (rejected r) (accept p) (minFileSize p) (maxFileSize p) in
    ({| dragEnter := false; hasError := false; draggedRejectedFiles := [] |},
     CancelDefaultEvent
       :: when (onDrop p) (OnDrop (files r) (accepted r) (rejected r) errors)
       ++ when (nonEmpty (accepted r) && onDropAccepted p) (OnDropAccepted (accepted r))
       ++ when (nonEmpty (rejected r) && onDropRejected p) (OnDropRejected (rejected r))).

(** [handleDragEnter] as created in a render with props [p], closing over
    the [filterValidFiles] created with props [pf] (lines 152-166). *)
Definition handleDragEnterOf (pf p : DropzoneProps) (st : State) (event : IntakeEvent)
    : State * list Effect :=
  if disabled p then (st, [CancelDefaultEvent])
  else
    let r := filterValidFiles matches pf event in
    ({| dragEnter := dragEnter st;
        hasError := hasError st;
        draggedRejectedFiles :=
          if nonEmpty (rejected r) then rejected r else draggedRejectedFiles st |},
     CancelDefaultEvent :: when (onDragEnter p) OnDragEnter).

(** The wiring of the component: [useEventListener] for the document,
    [onChange] of the input, and the [onDragStart], [onDragEnter],
    [onDragLeave], [onClick] props of the zone (lines 217-220, 259-272),
    each with the handler the last render returned.  [useEventListener]
    (utils/useEvent) is missing; it is taken to call the handler it was
    given in the last render. *)
Definition dispatch (m : Memo) (st : State) (ev : UIEvent) : State * list Action :=
  match ev with
  | DocDrop e | InputChange e =>
      lift (handleDropOf (props (fst (dropOf m))) (props (snd (dropOf m))) st e)
  | DocDragEnter e =>
      lift (handleDragEnterOf (props (fst (fst (dragEnterOf m))))
              (props (snd (fst (dragEnterOf m)))) st e)
  | DocDragLeave => handleDragLeave (props (dragLeaveOf m)) (others (dragLeaveOf m)) st
  | DocDragOver => handleDragOver (props (dragOverOf m)) (others (dragOverOf m)) st
  | ZoneDragStart => (st, [inl CancelDefaultEvent])
  | ZoneDragEnter => lift (handleDragEnterDropZone (props (zoneEnterOf m)) st)
  | ZoneDragLeave toChild => handleDragLeaveDropZone (props (zoneLeaveOf m)) st toChild
  | ZoneClick inputMounted =>
      handleClick (props (latest m)) (others (latest m)) st inputMounted
  end.

(** One step.  After an event the component is rendered again with what it
    was given last and with the state the handler left (a render that
    changes nothing when the state is the same). *)
Definition stepUI (c : Mounted) (s : Step) : Mounted * list Action :=
  match s with
  | Rerender r => ({| memo := render (memo c) (ui c) r; ui := ui c |}, [])
  | Happens ev =>
      let res := dispatch (memo c) (ui c) ev in
      ({| memo := render (memo c) (fst res) (latest (memo c)); ui := fst res |},
       snd res)
  end.

(** A sequence of steps. *)
Fixpoint runUI (c : Mounted) (steps : list Step) : Mounted * list Action :=
  match steps with
  | [] => (c, [])
  | s :: rest =>
      let r1 := stepUI c s in
      let r2 := runUI (fst r1) rest in
      (fst r2, snd r1 ++ snd r2)
  end.

End Dispatch.

(** *** The panel aspect ratio *)

(** The strings of the [panelLayout] union type. *)
Definition layoutString (l : PanelLayout) : string :=
  match l with
  | integrated => "integrated"
  | compact => "compact"
  | circle => "circle"
  end.

(** [/re/.test(s)] for a regular expression that is a plain word: [s]
    contains the word. *)
Fixpoint regexTest (word s : string) : bool :=
  String.prefix word s ||
  match s with
  | EmptyString => false
  | String _ s' => regexTest word s'
  end.

Section AspectRatio.

(** JavaScript numbers, the literal [1], and the parser of utils/crop, which
    is missing: [None] stands for the parser throwing. *)
Variable Number : Type.
Variable one : Number.
Variable getNumericAspectRatioFromString : option string → option Number.

(** [getPanelAspectRatio], DropZone.tsx lines 234-240. *)
Definition getPanelAspectRatio (p : DropzoneProps) : option Number :=
  let isShapeCircle := regexTest "circle" (layoutString (panelLayout p)) in
  if isShapeCircle then Some one
  else getNumericAspectRatioFromString (panelAspectRatio p).

End AspectRatio.

(** *** The ratio parser *)

(** A JavaScript number, as far as the quotient of two unsigned decimals
    needs it: a finite value, taken exactly (the double the code computes is
    this value rounded), [Infinity] and [NaN]. *)
Inductive JSNumber := Finite (q : Q) | Infinity | NaN.

(** The value of a decimal digit: the characters with codes 48 to 57. *)
Definition digitValue (c : ascii) : option N :=
  let code := N_of_ascii c in
  if (48 <=? code)%N && (code <=? 57)%N then Some (code - 48)%N else None.

(** The value of a sequence of decimal digits read after [acc]. *)
Fixpoint digitsValue (acc : N) (s : string) : option N :=
  match s with
  | EmptyString => Some acc
  | String c s' =>
      match digitValue c with
      | Some d => digitsValue (10 * acc + d) s'
      | None => None
      end
  end.

(** A non-empty sequence of decimal digits. *)
Definition parseDigits (s : string) : option N :=
  match s with
  | EmptyString => None
  | _ => digitsValue 0 s
  end.

(** [s] cut at the first [c]. *)
Fixpoint splitAtChar (c : ascii) (s : string) : option (string * string) :=
  match s with
  | EmptyString => None
  | String c' s' =>
      if Ascii.eqb c' c then Some (EmptyString, s')
      else match splitAtChar c s' with
           | Some (l, r) => Some (String c' l, r)
           | None => None
           end
  end.

(** A natural number among the rationals. *)
Definition ofN (n : N) : Q := inject_Z (Z.of_N n).

(** Modelled from the spec: the "number" of "number:number", an unsigned
    decimal: digits, or digits, a point and digits. *)
Definition parseNumber (s : string) : option Q :=
  match splitAtChar "." s with
  | None =>
      match parseDigits s with
      | Some n => Some (ofN n)
      | None => None
      end
  | Some (whole, fraction) =>
      match parseDigits whole, parseDigits fraction with
      | Some n, Some f =>
          Some (ofN n + ofN f / ofN (10 ^ N.of_nat (String.length fraction)))%Q
      | _, _ => None
      end
  end.

(** JavaScript's [w / h] for operands that are not negative. *)
Definition divide (w h : Q) : JSNumber :=
  if Qeq_bool h 0 then (if Qeq_bool w 0 then NaN else Infinity)
  else Finite (w / h).

(** Modelled from the spec: [getNumericAspectRatioFromString] of utils/crop
    is missing.  "parsed "W:H" string as W/H (numeric)"; "fails with
    InvalidFormat for strings not matching number:number".  [None] is the
    failure; an absent string matches nothing. *)
Definition getNumericAspectRatioFromString (s : option string) : option JSNumber :=
  match s with
  | None => None
  | Some s =>
      match splitAtChar ":" s with
      | None => None
      | Some (W, H) =>
          match parseNumber W, parseNumber H with
          | Some w, Some h => Some (divide w h)
          | _, _ => None
          end
      end
  end.

(** [getPanelAspectRatio()] with that parser. *)
Definition panelRatio (p : DropzoneProps) : option JSNumber :=
  getPanelAspectRatio JSNumber (Finite 1) getNumericAspectRatioFromString p.

End DropZone.

(** ** The worker channel of utils/worker.ts *)

Module Worker.

(** [{ id, message }], the frame of both directions. *)
Record Frame (A : Type) := { id : string; message : A }.
Arguments id {A} _.
Arguments message {A} _.

Section Channel.

(** Request payloads, response payloads, callbacks and transferables. *)
Context {Req Resp Cb Transferable : Type}.

(** [Math.random().toString(36).substring(2, 12)]: the string the [n]-th
    call of [getUniqueId] on the channel yields. *)
Variable random : nat → string.

(** What [createWorker] closes over: the [onmessage] slot of the worker (the
    handler [post] installs is determined by the [id] and [cb] it captures),
    the [postMessage] calls made so far, whether the worker was terminated,
    whether the object URL was revoked, and the number of ids drawn.
    [invoked] records the calls of callbacks, oldest first. *)
Record Channel := {
  onmessage : option (string * Cb);
  posted : list (Frame Req * list Transferable);
  terminated : bool;
  urlRevoked : bool;
  draws : nat;
  invoked : list (Cb * Resp)
}.

(** [getUniqueId] for a channel that has drawn [n] ids. *)
Definition getUniqueId (n : nat) : string := random n.

(** [createWorker(fn)]: the blob, its object URL and the worker exist, no
    handler is installed. *)
Definition createWorker : Channel :=
  {| onmessage := None; posted := []; terminated := false; urlRevoked := false;
     draws := 0; invoked := [] |}.

(** [transfer: (message, cb) => {}] *)
Definition transfer (ch : Channel) (msg : Req) (cb : Cb) : Channel := ch.

(** [post], worker.ts lines 37-53: the assignment to [worker.onmessage]
    replaces whatever handler was there. *)
Definition post (ch : Channel) (msg : Req) (cb : Cb) (transferList : list Transferable)
    : Channel :=
  let i := getUniqueId (draws ch) in
  {| onmessage := Some (i, cb);
     posted := posted ch ++ [({| id := i; message := msg |}, transferList)];
     terminated := terminated ch;
     urlRevoked := urlRevoked ch;
     draws := S (draws ch);
     invoked := invoked ch |}.

(** [terminate], lines 57-60. *)
Definition terminate (ch : Channel) : Channel :=
  {| onmessage := onmessage ch; posted := posted ch;
     terminated := true; urlRevoked := true;
     draws := draws ch; invoked := invoked ch |}.

(** The platform dispatching a message event [e] of the worker: a terminated
    worker delivers nothing; otherwise the installed handler runs,
    [if (e.data.id === id) cb(e.data.message)]. *)
Definition receive (ch : Channel) (e : Frame Resp) : Channel :=
  if terminated ch then ch
  else
    match onmessage ch with
    | None => ch
    | Some (i, cb) =>
        if String.eqb (id e) i
        then {| onmessage := onmessage ch; posted := posted ch;
                terminated := terminated ch; urlRevoked := urlRevoked ch;
                draws := draws ch;
                invoked := invoked ch ++ [(cb, message e)] |}
        else ch
    end.

(** What can happen to a channel, and runs of such events. *)
Inductive Event :=
| Post (msg : Req) (cb : Cb) (transferList : list Transferable)
| Transfer (msg : Req) (cb : Cb)
| Receive (e : Frame Resp)
| Terminate.

Definition step (ch : Channel) (ev : Event) : Channel :=
  match ev with
  | Post msg cb tl => post ch msg cb tl
  | Transfer msg cb => transfer ch msg cb
  | Receive e => receive ch e
  | Terminate => terminate ch
  end.

Definition run (ch : Channel) (evs : list Event) : Channel := foldl step ch evs.

(** A batch of calls issued in a row, before any response arrives. *)
Definition postAll (ch : Channel) (calls : list (Req * Cb)) : Channel :=
  foldl (λ c call, post c (fst call) (snd call) []) ch calls.

(** Calls made one at a time: each call is answered, under the id it was
    posted with, before the next one is made.  [n] is the number of ids
    drawn before. *)
Fixpoint sequential (n : nat) (calls : list (Req * Cb * Resp)) : list Event :=
  match calls with
  | [] => []
  | (msg, cb, r) :: rest =>
      Post msg cb [] :: Receive {| id := getUniqueId n; message := r |}
        :: sequential (S n) rest
  end.

(** The requests and the responses of a run, in order. *)
Definition posts (evs : list Event) : list (Req * list Transferable) :=
  omap (λ ev, match ev with Post msg _ tl => Some (msg, tl) | _ => None end) evs.

Definition responses (evs : list Event) : list (Frame Resp) :=
  omap (λ ev, match ev with Receive e => Some e | _ => None end) evs.

(** The frames a worker posted arriving at the channel. *)
Definition receiveAll {T : Type} (ch : Channel) (frames : list (Frame Resp * list T))
    : Channel :=
  foldl (λ c fr, receive c (fst fr)) ch frames.

End Channel.

Arguments Channel : clear implicits.
Arguments Event : clear implicits.

(** *** The bitmap worker *)

Section Bitmap.

(** Decoded bitmaps and the platform's [createImageBitmap]; [None] stands
    for a promise that rejects (the file does not decode). *)
Variable ImageBitmap : Type.
Variable createImageBitmap : DropZone.File → option ImageBitmap.

(** [message: { file: File }] *)
Record BitmapRequest := { file : DropZone.File }.

(** [BitmapWorker], lines 67-78: what the handler it installs on [self]
    posts for a request [e], each frame with its transfer list.  There is a
    [then] and no [catch]. *)
Definition BitmapWorker (e : Frame BitmapRequest)
    : list (Frame ImageBitmap * list ImageBitmap) :=
  match createImageBitmap (file (message e)) with
  | Some bitmap => [({| id := id e; message := bitmap |}, [bitmap])]
  | None => []
  end.

End Bitmap.

End Worker.

(** ** Concrete files, props and channels used in the examples *)

Module Examples.

Import DropZone.

(** A matcher for accept strings that are one exact MIME type. *)
Definition exactMime (spec : string) (f : File) : bool := String.eqb spec (fileType f).

Definition fileA : File :=
  {| ref := 1; fileName := "a.png"; fileType := "image/png"; fileSize := 1 |}.
Definition fileB : File :=
  {| ref := 2; fileName := "b.png"; fileType := "image/png"; fileSize := 1 |}.
Definition fileC : File :=
  {| ref := 3; fileName := "c.png"; fileType := "image/png"; fileSize := 100 |}.

(** Two files of 6MB each. *)
Definition big1 : File :=
  {| ref := 4; fileName := "d.png"; fileType := "image/png"; fileSize := 6 * 1024 * 1024 |}.
Definition big2 : File :=
  {| ref := 5; fileName := "e.png"; fileType := "image/png"; fileSize := 6 * 1024 * 1024 |}.

Definition notes : File :=
  {| ref := 6; fileName := "notes.txt"; fileType := "text/plain"; fileSize := 12 |}.

(** The defaults of the parameter list, with the three drop callbacks
    handed in. *)
Definition defaultProps : DropzoneProps :=
  {| accept := None; allowMultiple := true;
     maxFileSize := None; minFileSize := None; maxTotalFileSize := None;
     disabled := false; panelLayout := integrated; panelAspectRatio := None;
     onDrop := true; onDropAccepted := true; onDropRejected := true;
     onDragEnter := false |}.

(** [allowMultiple={false} maxFileSize="10B"] *)
Definition singleProps : DropzoneProps :=
  {| accept := None; allowMultiple := false;
     maxFileSize := Some {| amount := 10; sizeUnit := B |};
     minFileSize := None; maxTotalFileSize := None;
     disabled := false; panelLayout := integrated; panelAspectRatio := None;
     onDrop := true; onDropAccepted := true; onDropRejected := true;
     onDragEnter := false |}.

(** [maxTotalFileSize="10MB"] *)
Definition totalProps : DropzoneProps :=
  {| accept := None; allowMultiple := true;
     maxFileSize := None; minFileSize := None;
     maxTotalFileSize := Some {| amount := 10; sizeUnit := MB |};
     disabled := false; panelLayout := integrated; panelAspectRatio := None;
     onDrop := true; onDropAccepted := true; onDropRejected := true;
     onDragEnter := false |}.

(** [disabled] *)
Definition disabledProps : DropzoneProps :=
  {| accept := None; allowMultiple := true;
     maxFileSize := None; minFileSize := None; maxTotalFileSize := None;
     disabled := true; panelLayout := integrated; panelAspectRatio := None;
     onDrop := true; onDropAccepted := true; onDropRejected := true;
     onDragEnter := false |}.

(** A component state in the middle of a drag with a rejected file. *)
Definition draggingState : State :=
  {| dragEnter := true; hasError := true; draggedRejectedFiles := [fileC] |}.

(** [panelAspectRatio="4:3"] with a given layout. *)
Definition ratioProps (l : PanelLayout) : DropzoneProps :=
  {| accept := None; allowMultiple := true;
     maxFileSize := None; minFileSize := None; maxTotalFileSize := None;
     disabled := false; panelLayout := l; panelAspectRatio := Some "4:3";
     onDrop := false; onDropAccepted := false; onDropRejected := false;
     onDragEnter := false |}.

(** Renders of the examples: no callbacks besides those of the props, and
    the same functions handed in every time. *)
Definition noOthers : OtherCallbacks :=
  {| onDragLeave := false; onDragOver := false; onClick := false |}.

Definition sameIds : CallbackIds :=
  {| onDropId := 0; onDropAcceptedId := 0; onDropRejectedId := 0;
     onDragEnterId := 0; onDragLeaveId := 0; onDragOverId := 0 |}.

Definition renderOf (p : DropzoneProps) : Render :=
  {| props := p; others := noOthers; ids := sameIds |}.

(** Ids as a random source may yield them: the first two differ. *)
Definition idsAB (n : nat) : string :=
  match n with 0 => "k3f9x0a2bq" | 1 => "z81hd02mmc" | _ => "0000000000" end.

(** [createImageBitmap] on a platform that decodes exactly the files whose
    type is an image type; a bitmap is represented by the [ref] of its
    file. *)
Definition decodeImages (f : File) : option nat :=
  if String.prefix "image/" (fileType f) then Some (ref f) else None.

End Examples.

(** ** Properties of the intake path *)

Section IntakeProperties.

Import DropZone.

Variable matches : string → File → bool.


(** [checkFileAcceptance] splits the list with [filter]. *)
Lemma checkFileAcceptance_filter l a M m :
  acceptedFiles (checkFileAcceptance matches l a M m)
    = filter (λ f, Is_true (fileValid matches a M m f)) l
  ∧ rejectedFiles (checkFileAcceptance matches l a M m)
    = filter (λ f, ¬ Is_true (fileValid matches a M m f)) l.
Proof.
  induction l as [|f l [IHa IHr]]; [done|].
  cbn [checkFileAcceptance]. rewrite !filter_cons.
  destruct (fileValid matches a M m f) eqn:E; cbn [acceptedFiles rejectedFiles].
  - rewrite decide_True, decide_False by (cbn; tauto). by rewrite IHa, IHr.
  - rewrite decide_False, decide_True by (cbn; tauto). by rewrite IHa, IHr.
Qed.

Lemma checkFileAcceptance_perm l a M m :
  acceptedFiles (checkFileAcceptance matches l a M m)
    ++ rejectedFiles (checkFileAcceptance matches l a M m) ≡ₚ l.
Proof.
  destruct (checkFileAcceptance_filter l a M m) as [-> ->].
  apply filter_app_complement.
Qed.

Lemma checkFileAcceptance_sublist l a M m :
  acceptedFiles (checkFileAcceptance matches l a M m) `sublist_of` l
  ∧ rejectedFiles (checkFileAcceptance matches l a M m) `sublist_of` l.
Proof.
  destruct (checkFileAcceptance_filter l a M m) as [-> ->].
  split; apply sublist_filter.
Qed.


(** The result of [filterValidFiles] in terms of [checkFileAcceptance]. *)
Lemma filterValidFiles_unfold p ev :
  let c := checkFileAcceptance matches (eventFiles ev)
             (accept p) (maxFileSize p) (minFileSize p) in
  let r := filterValidFiles matches p ev in
  files r = eventFiles ev
  ∧ accepted r = (if allowMultiple p then acceptedFiles c else take 1 (acceptedFiles c))
  ∧ rejected r
      = rejectedFiles c ++ (if allowMultiple p then [] else drop 1 (acceptedFiles c)).
Proof.
  cbn zeta. unfold filterValidFiles, getAllDragedFiles.
  destruct (allowMultiple p); cbn.
  - by rewrite app_nil_r.
  - destruct (acceptedFiles _) as [|x xs]; cbn; [by rewrite app_nil_r|].
    by rewrite drop_0.
Qed.

End IntakeProperties.

Import DropZone.

(** C2 (as amended).  For any props and any file list, the accepted list
    followed by the rejected list of [filterValidFiles] is a permutation of
    the input, so that the two have no file in common when the files of the
    input are distinct, and the accepted list is in input order.  The
    rejected list is the files that failed a per-file rule, in input order,
    followed, when [allowMultiple] is false, by the tentatively accepted
    files after the first, in input order; it is in input order when
    [allowMultiple] is true. *)
Theorem filterValidFiles_partition (matches : string → File → bool) p ev :
  let c := checkFileAcceptance matches (eventFiles ev)
             (accept p) (maxFileSize p) (minFileSize p) in
  let r := filterValidFiles matches p ev in
  let surplus := if allowMultiple p then [] else drop 1 (acceptedFiles c) in
  accepted r ++ rejected r ≡ₚ eventFiles ev
  ∧ (NoDup (eventFiles ev) → ∀ f, f ∈ accepted r → f ∉ rejected r)
  ∧ accepted r `sublist_of` eventFiles ev
  ∧ rejected r = rejectedFiles c ++ surplus
  ∧ rejectedFiles c `sublist_of` eventFiles ev
  ∧ surplus `sublist_of` eventFiles ev
  ∧ (allowMultiple p = true → rejected r `sublist_of` eventFiles ev).
Proof.
  intros c r surplus.
  destruct (filterValidFiles_unfold matches p ev) as (_ & Ha & Hr).
  fold c r surplus in Ha, Hr.
  destruct (checkFileAcceptance_sublist matches (eventFiles ev)
              (accept p) (maxFileSize p) (minFileSize p)) as [Hsa Hsr].
  fold c in Hsa, Hsr.
  assert (Hperm : accepted r ++ rejected r ≡ₚ eventFiles ev).
  { rewrite Ha, Hr. subst surplus.
    rewrite <- (checkFileAcceptance_perm matches (eventFiles ev)
                  (accept p) (maxFileSize p) (minFileSize p)). fold c.
    destruct (allowMultiple p); [by rewrite app_nil_r|].
    rewrite <- (take_drop 1 (acceptedFiles c)) at 3.
    rewrite <- !(assoc_L (++)). f_equiv. apply Permutation_app_comm. }
  split; [done|]. split; [|split; [|split; [done|split; [done|split]]]].
  - intros Hnd f Hfa Hfr.
    rewrite <- Hperm in Hnd. apply NoDup_app in Hnd as (_ & Hdis & _).
    by apply (Hdis f).
  - rewrite Ha. destruct (allowMultiple p); [done|].
    etrans; [apply sublist_take|done].
  - subst surplus. destruct (allowMultiple p); [apply sublist_nil_l|].
    etrans; [apply sublist_drop|done].
  - intros Hm. rewrite Hr. subst surplus. by rewrite Hm, app_nil_r.
Qed.

(** The theorem at three distinct files, the third too large, with
    [allowMultiple] false. *)
Lemma filterValidFiles_partition_witness :
  let ev := {| eventFiles := [Examples.fileA; Examples.fileB; Examples.fileC] |} in
  let r := filterValidFiles Examples.exactMime Examples.singleProps ev in
  NoDup (eventFiles ev)
  ∧ accepted r ++ rejected r ≡ₚ eventFiles ev
  ∧ (∀ f, f ∈ accepted r → f ∉ rejected r)
  ∧ accepted r `sublist_of` eventFiles ev.
Proof.
  assert (Hnd : NoDup [Examples.fileA; Examples.fileB; Examples.fileC]).
  { apply NoDup_ListNoDup. repeat constructor; cbn; intuition discriminate. }
  split; [exact Hnd|].
  pose proof (filterValidFiles_partition Examples.exactMime Examples.singleProps
                {| eventFiles := [Examples.fileA; Examples.fileB; Examples.fileC] |})
    as (Hp & Hd & Hs & _).
  split; [exact Hp|]. split; [exact (Hd Hnd) | exact Hs].
Defined.

(** C2, counterexample.  With [allowMultiple] false, the valid files [a],
    [b] and the oversized file [c] dropped in this order are rejected in the
    order [c], [b]: the rejected list is not in input order. *)
Lemma filterValidFiles_rejected_order_counterexample :
  let ev := {| eventFiles := [Examples.fileA; Examples.fileB; Examples.fileC] |} in
  let r := filterValidFiles Examples.exactMime Examples.singleProps ev in
  accepted r = [Examples.fileA]
  ∧ rejected r = [Examples.fileC; Examples.fileB]
  ∧ ¬ rejected r `sublist_of` eventFiles ev.
Proof.
  cbn zeta. split; [reflexivity|]. split; [reflexivity|].
  change (rejected _) with [Examples.fileC; Examples.fileB]. cbn [eventFiles].
  intros H.
  repeat match goal with
         | H : _ `sublist_of` _ |- _ => inv H
         end.
Qed.




(** [filterValidFiles] never reads [maxTotalFileSize]. *)
Lemma filterValidFiles_ignores_maxTotalFileSize matches p total ev :
  filterValidFiles matches
    {| accept := accept p; allowMultiple := allowMultiple p;
       maxFileSize := maxFileSize p; minFileSize := minFileSize p;
       maxTotalFileSize := total;
       disabled := disabled p; panelLayout := panelLayout p;
       panelAspectRatio := panelAspectRatio p;
       onDrop := onDrop p; onDropAccepted := onDropAccepted p;
       onDropRejected := onDropRejected p; onDragEnter := onDragEnter p |} ev
  = filterValidFiles matches p ev.
Proof. reflexivity. Qed.

(** C4, the code at the spec's example.  With [maxTotalFileSize="10MB"] and
    two files of 6MB, whose sizes add up to more than the bound, both files
    are accepted, none is rejected, no error is reported, and [onDrop] and
    [onDropAccepted] are called with both. *)
Theorem maxTotalFileSize_not_enforced :
  let ev := {| eventFiles := [Examples.big1; Examples.big2] |} in
  let r := filterValidFiles Examples.exactMime Examples.totalProps ev in
  maxTotalFileSize Examples.totalProps = Some {| amount := 10; sizeUnit := MB |}
  ∧ (toBytes {| amount := 10; sizeUnit := MB |}
       < fileSize Examples.big1 + fileSize Examples.big2)%N
  ∧ accepted r = [Examples.big1; Examples.big2]
  ∧ rejected r = []
  ∧ snd (handleDrop Examples.exactMime Examples.totalProps initialState ev)
    = [ CancelDefaultEvent;
        OnDrop [Examples.big1; Examples.big2] [Examples.big1; Examples.big2] [] [];
        OnDropAccepted [Examples.big1; Examples.big2] ].
Proof. cbn zeta. repeat split; reflexivity. Qed.

Lemma elem_of_when c e e' : e' ∈ when c e ↔ c = true ∧ e' = e.
Proof.
  destruct c; cbn.
  - rewrite list_elem_of_singleton. intuition congruence.
  - rewrite elem_of_nil. intuition congruence.
Qed.

Lemma nonEmpty_true {A} (xs : list A) : nonEmpty xs = true ↔ xs ≠ [].
Proof. by destruct xs. Qed.

(** What [handleDrop] does when the zone is not disabled. *)
Lemma handleDrop_enabled (matches : string → File → bool) p st ev :
  disabled p = false →
  let r := filterValidFiles matches p ev in
  let errors :=
    getValidationErrors matches (rejected r) (accept p) (minFileSize p) (maxFileSize p) in
  handleDrop matches p st ev
  = ({| dragEnter := false; hasError := false; draggedRejectedFiles := [] |},
     CancelDefaultEvent
       :: when (onDrop p) (OnDrop (eventFiles ev) (accepted r) (rejected r) errors)
       ++ when (nonEmpty (accepted r) && onDropAccepted p) (OnDropAccepted (accepted r))
       ++ when (nonEmpty (rejected r) && onDropRejected p) (OnDropRejected (rejected r))).
Proof.
  intros Hd r errors. unfold handleDrop. rewrite Hd. fold r errors.
  assert (files r = eventFiles ev) as ->
    by apply (filterValidFiles_unfold matches p ev).
  reflexivity.
Qed.

(** C8.  When the zone is not disabled, [handleDrop] calls [onDrop], if it
    was handed in, with the full file list of the event, the accepted and
    the rejected list of [filterValidFiles] and the errors built for the
    rejected list, and with nothing else; it calls [onDropAccepted]
    (resp. [onDropRejected]) exactly when it was handed in and the accepted
    (resp. rejected) list is not empty, with that list. *)
Theorem handleDrop_callbacks (matches : string → File → bool) p st ev :
  disabled p = false →
  let r := filterValidFiles matches p ev in
  let errors :=
    getValidationErrors matches (rejected r) (accept p) (minFileSize p) (maxFileSize p) in
  let trace := snd (handleDrop matches p st ev) in
  (∀ all acc rej errs,
      OnDrop all acc rej errs ∈ trace ↔
      onDrop p = true ∧ all = eventFiles ev ∧ acc = accepted r
      ∧ rej = rejected r ∧ errs = errors)
  ∧ (∀ acc, OnDropAccepted acc ∈ trace ↔
            onDropAccepted p = true ∧ accepted r ≠ [] ∧ acc = accepted r)
  ∧ (∀ rej, OnDropRejected rej ∈ trace ↔
            onDropRejected p = true ∧ rejected r ≠ [] ∧ rej = rejected r).
Proof.
  intros Hd r errors trace.
  subst trace. rewrite (handleDrop_enabled matches p st ev Hd). cbn [snd].
  fold r errors.
  split; [|split].
  - intros all acc rej errs.
    rewrite elem_of_cons, !elem_of_app, !elem_of_when.
    split.
    + intros [?|[[? [= -> -> -> ->]]|[[_ ?]|[_ ?]]]]; try done.
    + intros (? & -> & -> & -> & ->). right. left. by split.
  - intros acc.
    rewrite elem_of_cons, !elem_of_app, !elem_of_when,
      andb_true_iff, nonEmpty_true.
    split.
    + intros [?|[[_ ?]|[[[? ?] [= ->]]|[_ ?]]]]; try done.
    + intros (? & ? & ->). right. right. left. by repeat split.
  - intros rej.
    rewrite elem_of_cons, !elem_of_app, !elem_of_when,
      !andb_true_iff, !nonEmpty_true.
    split.
    + intros [?|[[_ ?]|[[_ ?]|[[? ?] [= ->]]]]]; try done.
    + intros (? & ? & ->). right. right. right. by repeat split.
Qed.

(** The theorem at a drop of one valid and one oversized file. *)
Lemma handleDrop_callbacks_witness :
  let ev := {| eventFiles := [Examples.fileA; Examples.fileC] |} in
  let trace :=
    snd (handleDrop Examples.exactMime Examples.singleProps initialState ev) in
  disabled Examples.singleProps = false
  ∧ OnDropAccepted [Examples.fileA] ∈ trace
  ∧ OnDropRejected [Examples.fileC] ∈ trace.
Proof.
  cbn zeta. split; [reflexivity|].
  pose proof (handleDrop_callbacks Examples.exactMime Examples.singleProps
                initialState {| eventFiles := [Examples.fileA; Examples.fileC] |}
                eq_refl) as (_ & Ha & Hr).
  split.
  - apply Ha. repeat split; done.
  - apply Hr. repeat split; done.
Defined.

(** C10.  When the zone is disabled, [handleDrop] only cancels the event's
    default: the component state is returned as it was and none of
    [onDrop], [onDropAccepted], [onDropRejected] is called.  With
    [disabled] false and [onDrop] handed in, the same event on the same
    state does call [onDrop]. *)
Theorem handleDrop_disabled (matches : string → File → bool) p st ev :
  disabled p = true →
  handleDrop matches p st ev = (st, [CancelDefaultEvent])
  ∧ (onDrop p = true →
     ∃ acc rej errs,
       OnDrop (eventFiles ev) acc rej errs ∈ snd (handleDrop matches (enabled p) st ev)).
Proof.
  intros Hd. split.
  - unfold handleDrop. by rewrite Hd.
  - intros Hon.
    rewrite (handleDrop_enabled matches (enabled p) st ev eq_refl).
    cbn [snd onDrop enabled]. rewrite Hon.
    eexists _, _, _. apply elem_of_cons. right. apply elem_of_cons. by left.
Qed.

(** The theorem in the middle of a drag: the error and drag-enter flags
    stay set; with [disabled] false the drop reaches [onDrop]. *)
Lemma handleDrop_disabled_witness :
  let ev := {| eventFiles := [Examples.fileA; Examples.fileC] |} in
  disabled Examples.disabledProps = true
  ∧ handleDrop Examples.exactMime Examples.disabledProps Examples.draggingState ev
    = (Examples.draggingState, [CancelDefaultEvent])
  ∧ ∃ acc rej errs,
      OnDrop (eventFiles ev) acc rej errs
      ∈ snd (handleDrop Examples.exactMime (enabled Examples.disabledProps)
               Examples.draggingState ev).
Proof.
  cbn zeta.
  destruct (handleDrop_disabled Examples.exactMime Examples.disabledProps
              Examples.draggingState
              {| eventFiles := [Examples.fileA; Examples.fileC] |} eq_refl)
    as [Hsame Hcalls].
  split; [reflexivity|]. split; [exact Hsame | exact (Hcalls eq_refl)].
Defined.

(** That state arises from a drag of the oversized file into the zone. *)
Example draggingState_reachable :
  let s1 := fst (handleDragEnter Examples.exactMime Examples.singleProps initialState
                   {| eventFiles := [Examples.fileC] |}) in
  fst (handleDragEnterDropZone Examples.singleProps s1) = Examples.draggingState.
Proof. reflexivity. Qed.

(** [/circle/.test(panelLayout)] holds for the layout [circle] only. *)
Lemma isShapeCircle_iff l : regexTest "circle" (layoutString l) = true ↔ l = circle.
Proof. destruct l; cbn; split; congruence. Qed.

(** For any number type and any parser: [1] for the layout [circle], what
    the parser returns for the other layouts. *)
Lemma getPanelAspectRatio_any_parser (Number : Type) (one : Number)
    (parser : option string → option Number) p :
  getPanelAspectRatio Number one parser p
  = match panelLayout p with
    | circle => Some one
    | integrated | compact => parser (panelAspectRatio p)
    end.
Proof. unfold getPanelAspectRatio. by destruct (panelLayout p). Qed.

(** ** The panel aspect ratio with the ratio parser *)

Lemma digitValue_pretty_N_char x :
  (x < 10)%N → digitValue (pretty_N_char x) = Some x.
Proof.
  intros Hx. destruct x as [|q]; [reflexivity|].
  do 4 (destruct q as [q|q|]; try reflexivity; try lia).
Qed.

(** Reading back the digits [pretty_N_go] writes. *)
Lemma digitsValue_pretty_N_go x :
  ∃ k, ∀ acc s,
    digitsValue acc (pretty_N_go x s) = digitsValue (acc * 10 ^ k + x) s.
Proof.
  induction (N.lt_wf_0 x) as [x _ IH].
  assert (x = 0 ∨ 0 < x)%N as [->|Hx] by lia.
  - exists 0%N. intros acc s. rewrite pretty_N_go_0. f_equal. lia.
  - destruct (IH (x `div` 10)%N) as [k Hk]; [by apply N.div_lt|].
    exists (N.succ k). intros acc s.
    rewrite pretty_N_go_step, Hk by done. cbn [digitsValue].
    rewrite digitValue_pretty_N_char by (by apply N.mod_lt).
    f_equal. rewrite N.pow_succ_r'.
    pose proof (N.div_mod x 10). lia.
Qed.

Lemma pretty_N_go_nonempty x s : s ≠ EmptyString → pretty_N_go x s ≠ EmptyString.
Proof.
  revert s. induction (N.lt_wf_0 x) as [x _ IH]; intros s Hs.
  assert (x = 0 ∨ 0 < x)%N as [->|Hx] by lia.
  - by rewrite pretty_N_go_0.
  - rewrite pretty_N_go_step by done. apply IH; [by apply N.div_lt|done].
Qed.

(** The decimal numeral of a natural number is read back as that number. *)
Lemma parseDigits_pretty (n : N) : parseDigits (pretty n) = Some n.
Proof.
  unfold pretty, pretty_N. destruct (decide (n = 0%N)) as [->|Hn]; [done|].
  destruct (digitsValue_pretty_N_go n) as [k Hk].
  assert (Hne : pretty_N_go n "" ≠ EmptyString).
  { rewrite pretty_N_go_step by lia. by apply pretty_N_go_nonempty. }
  unfold parseDigits. destruct (pretty_N_go n "") eqn:E; [done|].
  rewrite <- E, Hk. cbn [digitsValue]. f_equal; lia.
Qed.

(** A sequence of digits contains no other character. *)
Lemma digitsValue_splitAtChar c s acc n :
  digitValue c = None → digitsValue acc s = Some n → splitAtChar c s = None.
Proof.
  intros Hc. revert acc. induction s as [|c' s IH]; intros acc Hs; [done|].
  cbn [digitsValue splitAtChar] in *. destruct (Ascii.eqb_spec c' c) as [->|_].
  - by rewrite Hc in Hs.
  - destruct (digitValue c'); [|done]. by rewrite (IH _ Hs).
Qed.

Lemma parseDigits_splitAtChar c s n :
  digitValue c = None → parseDigits s = Some n → splitAtChar c s = None.
Proof.
  intros Hc Hs. destruct s; [done|]. by eapply digitsValue_splitAtChar.
Qed.

(** Cutting at the first [c]. *)
Lemma splitAtChar_Some c s l r :
  splitAtChar c s = Some (l, r) → s = l +:+ String c r ∧ splitAtChar c l = None.
Proof.
  revert l. induction s as [|c' s IH]; intros l Hs; [done|].
  cbn [splitAtChar] in Hs. destruct (Ascii.eqb_spec c' c) as [->|Hne].
  - by injection Hs as <- <-.
  - destruct (splitAtChar c s) as [[l' r']|]; [|done].
    injection Hs as <- <-. destruct (IH l' eq_refl) as [-> Hl].
    split; [done|]. cbn [splitAtChar].
    destruct (Ascii.eqb_spec c' c); [done|]. by rewrite Hl.
Qed.

Lemma splitAtChar_app c l r :
  splitAtChar c l = None → splitAtChar c (l +:+ String c r) = Some (l, r).
Proof.
  induction l as [|c' l IH]; simpl; intros Hl.
  - by rewrite Ascii.eqb_refl.
  - destruct (Ascii.eqb c' c); [done|].
    destruct (splitAtChar c l) as [[??]|]; [done|]. by rewrite IH.
Qed.

(** A number contains no colon. *)
Lemma parseNumber_no_colon s q : parseNumber s = Some q → splitAtChar ":" s = None.
Proof.
  unfold parseNumber. intros Hs.
  destruct (splitAtChar "." s) as [[whole fraction]|] eqn:Hsplit.
  - apply splitAtChar_Some in Hsplit as [-> _].
    destruct (parseDigits whole) eqn:Hw; [|done].
    destruct (parseDigits fraction) eqn:Hf; [|done].
    apply (parseDigits_splitAtChar ":") in Hw; [|done].
    apply (parseDigits_splitAtChar ":") in Hf; [|done].
    clear Hs.
    induction whole as [|c' w IH]; simpl in *.
    + by rewrite Hf.
    + destruct (Ascii.eqb c' ":"); [done|].
      destruct (splitAtChar ":" w) as [[??]|]; [done|]. by rewrite IH.
  - destruct (parseDigits s) eqn:Hd; [|done].
    by apply (parseDigits_splitAtChar ":") in Hd.
Qed.

(** The numeral of a natural number is a number, with that value. *)
Lemma parseNumber_pretty (n : N) : parseNumber (pretty n) = Some (ofN n).
Proof.
  unfold parseNumber.
  rewrite (parseDigits_splitAtChar "." _ n eq_refl (parseDigits_pretty n)).
  by rewrite parseDigits_pretty.
Qed.

(** The parser on a string of the form number:number. *)
Lemma getNumericAspectRatioFromString_numbers W H w h :
  parseNumber W = Some w → parseNumber H = Some h →
  getNumericAspectRatioFromString (Some (W +:+ ":" +:+ H)) = Some (divide w h).
Proof.
  intros HW HH. unfold getNumericAspectRatioFromString.
  change (":" +:+ H) with (String ":" H).
  rewrite (splitAtChar_app ":" W H (parseNumber_no_colon W w HW)).
  by rewrite HW, HH.
Qed.

Lemma divide_finite w h : ¬ (h == 0)%Q → divide w h = Finite (w / h).
Proof.
  intros Hh. unfold divide.
  destruct (Qeq_bool h 0) eqn:E; [|done]. by apply Qeq_bool_iff in E.
Qed.

Lemma ofN_nonzero (n : N) : n ≠ 0%N → ¬ (ofN n == 0)%Q.
Proof.
  intros Hn. unfold ofN, Qeq. cbn. lia.
Qed.

(** C7.  When [panelLayout] is [circle] the panel aspect ratio is exactly
    [1], whatever [panelAspectRatio] is.  For the other layouts it is what
    the parser makes of [panelAspectRatio]: for a string "W:H" of two
    numbers with values [w] and [h], [h] not zero, it is the quotient
    [w / h]; in particular for the decimal numerals of two naturals. *)
Theorem panelRatio_circle_or_quotient p :
  (panelLayout p = circle → panelRatio p = Some (Finite 1))
  ∧ (panelLayout p ≠ circle →
     panelRatio p = getNumericAspectRatioFromString (panelAspectRatio p)
     ∧ (∀ W H w h,
          panelAspectRatio p = Some (W +:+ ":" +:+ H) →
          parseNumber W = Some w → parseNumber H = Some h → ¬ (h == 0)%Q →
          panelRatio p = Some (Finite (w / h)))
     ∧ (∀ w h : N,
          panelAspectRatio p = Some (pretty w +:+ ":" +:+ pretty h) →
          h ≠ 0%N →
          panelRatio p = Some (Finite (ofN w / ofN h)))).
Proof.
  unfold panelRatio, getPanelAspectRatio.
  split.
  - by intros ->.
  - intros Hl.
    assert (regexTest "circle" (layoutString (panelLayout p)) = false) as ->.
    { by destruct (panelLayout p). }
    split; [done|]. split.
    + intros W H w h -> HW HH Hh.
      rewrite (getNumericAspectRatioFromString_numbers W H w h HW HH).
      by rewrite divide_finite.
    + intros w h -> Hh.
      rewrite (getNumericAspectRatioFromString_numbers _ _ _ _
                 (parseNumber_pretty w) (parseNumber_pretty h)).
      by rewrite divide_finite by (by apply ofN_nonzero).
Qed.

(** The theorem at "4:3", for the layouts [circle] and [integrated]. *)
Lemma panelRatio_circle_or_quotient_witness :
  panelRatio (Examples.ratioProps circle) = Some (Finite 1)
  ∧ panelRatio (Examples.ratioProps integrated) = Some (Finite (ofN 4 / ofN 3))
  ∧ (ofN 4 / ofN 3 == 4 # 3)%Q.
Proof.
  split; [|split].
  - exact (proj1 (panelRatio_circle_or_quotient (Examples.ratioProps circle)) eq_refl).
  - refine (proj2 (proj2 (proj2 (panelRatio_circle_or_quotient
                                   (Examples.ratioProps integrated)) _))
              4%N 3%N eq_refl _); discriminate.
  - reflexivity.
Defined.

(** Strings that are not of the form number:number yield no ratio, and a
    zero denominator yields no finite one. *)
Example getNumericAspectRatioFromString_examples :
  getNumericAspectRatioFromString (Some "16:9") = Some (Finite (ofN 16 / ofN 9))
  ∧ getNumericAspectRatioFromString (Some "1.5:1")
    = Some (Finite ((ofN 1 + ofN 5 / ofN 10) / ofN 1))
  ∧ getNumericAspectRatioFromString (Some "wide") = None
  ∧ getNumericAspectRatioFromString (Some "4:") = None
  ∧ getNumericAspectRatioFromString (Some "4:x") = None
  ∧ getNumericAspectRatioFromString (Some "4:0") = Some Infinity
  ∧ getNumericAspectRatioFromString None = None.
Proof. repeat split; reflexivity. Qed.

(** ** Properties of the worker channel *)

Section ChannelProperties.

Import Worker.

Context {Req Resp Cb Transferable : Type}.
Variable random : nat → string.

Local Abbreviation Chan := (Channel Req Resp Cb Transferable).
Local Abbreviation Ev := (Event Req Resp Cb Transferable).

Lemma run_cons (ch : Chan) (ev : Ev) (evs : list Ev) :
  run random ch (ev :: evs) = run random (step random ch ev) evs.
Proof. reflexivity. Qed.

(** No operation revives a terminated channel or restores its URL, and a
    terminated channel calls nothing. *)
Lemma step_terminated (ch : Chan) (ev : Ev) :
  terminated ch = true → urlRevoked ch = true →
  terminated (step random ch ev) = true
  ∧ urlRevoked (step random ch ev) = true
  ∧ invoked (step random ch ev) = invoked ch.
Proof.
  intros Ht Hu. destruct ev as [msg cb tl|msg cb|e|]; cbn; try done.
  unfold receive. by rewrite Ht.
Qed.

Lemma run_terminated (evs : list Ev) (ch : Chan) :
  terminated ch = true → urlRevoked ch = true →
  terminated (run random ch evs) = true
  ∧ urlRevoked (run random ch evs) = true
  ∧ invoked (run random ch evs) = invoked ch.
Proof.
  revert ch. induction evs as [|ev evs IH]; intros ch Ht Hu; [done|].
  destruct (step_terminated ch ev Ht Hu) as (Ht' & Hu' & Hi').
  rewrite run_cons. destruct (IH (step random ch ev) Ht' Hu') as (? & ? & Hi).
  by rewrite Hi, Hi'.
Qed.

Lemma postAll_snoc (ch : Chan) calls call :
  postAll random ch (calls ++ [call])
  = post random (postAll random ch calls) (fst call) (snd call) [].
Proof. unfold postAll. by rewrite foldl_app. Qed.

Lemma postAll_draws (ch : Chan) calls :
  draws (postAll random ch calls) = draws ch + length calls
  ∧ terminated (postAll random ch calls) = terminated ch
  ∧ invoked (postAll random ch calls) = invoked ch.
Proof.
  revert ch. induction calls as [|call calls IH]; intros ch; cbn.
  - by rewrite Nat.add_0_r.
  - destruct (IH (post random ch (fst call) (snd call) [])) as (Hd & Ht & Hi).
    fold (postAll random (post random ch (fst call) (snd call) []) calls).
    rewrite Hd, Ht, Hi. cbn. split; [lia|done].
Qed.

(** After a batch, the one handler installed is that of the last call. *)
Lemma postAll_onmessage (ch : Chan) calls call :
  onmessage (postAll random ch (calls ++ [call]))
  = Some (getUniqueId random (draws ch + length calls), snd call).
Proof.
  rewrite postAll_snoc. cbn.
  by destruct (postAll_draws ch calls) as (-> & _ & _).
Qed.

(** Responses alone never change the handler; each one that carries the
    handler's id calls the handler's callback, the others do nothing. *)
Lemma run_responses (rs : list (Frame Resp)) (ch : Chan) i cb :
  terminated ch = false → onmessage ch = Some (i, cb) →
  invoked (run random ch (map Receive rs))
  = invoked ch
    ++ map (λ e, (cb, message e)) (List.filter (λ e, String.eqb (id e) i) rs).
Proof.
  revert ch. induction rs as [|e rs IH]; intros ch Ht Hh; cbn [map List.filter].
  - by rewrite app_nil_r.
  - rewrite run_cons. cbn [step]. unfold receive. rewrite Ht, Hh.
    destruct (String.eqb (id e) i).
    + rewrite IH by done. cbn. by rewrite <- (assoc_L (++)).
    + by rewrite IH.
Qed.

(** X12.  After a batch of calls made in a row on a fresh channel, whatever
    responses arrive, only the callback of the last call is ever called:
    once, with the frame's payload, for every frame that carries the id
    drawn for the last call, and not at all for the other frames. *)
Lemma batch_only_last_callback (calls : list (Req * Cb)) (call : Req * Cb)
    (rs : list (Frame Resp)) :
  invoked (run random (postAll random (createWorker (Req := Req)
                                         (Transferable := Transferable))
                         (calls ++ [call]))
             (map Receive rs))
  = map (λ e, (snd call, message e))
      (List.filter (λ e, String.eqb (id e) (getUniqueId random (length calls))) rs).
Proof.
  pose proof (postAll_onmessage createWorker calls call) as Hh.
  destruct (postAll_draws createWorker (calls ++ [call])) as (_ & Ht & Hi).
  rewrite (run_responses rs _ _ _ Ht Hh), Hi. reflexivity.
Qed.

End ChannelProperties.

Import Worker.

(** C1, the code at two concurrent calls.  After [post(m1, cb1)] and
    [post(m2, cb2)] on a fresh channel both requests are with the worker,
    the first under the first id drawn.  The response to the first request
    does not reach [cb1]: nothing is called when the two ids differ, and
    [cb2] is called with the first call's payload when they coincide. *)
Theorem post_twice_first_response {Req Resp Cb Transferable : Type}
    (random : nat → string) (m1 m2 : Req) (cb1 cb2 : Cb)
    (tl1 tl2 : list Transferable) (r1 : Resp) :
  let ch := post random (post random createWorker m1 cb1 tl1) m2 cb2 tl2 in
  let i1 := getUniqueId random 0 in
  let i2 := getUniqueId random 1 in
  posted ch = [({| id := i1; message := m1 |}, tl1); ({| id := i2; message := m2 |}, tl2)]
  ∧ onmessage ch = Some (i2, cb2)
  ∧ invoked (receive ch {| id := i1; message := r1 |})
    = if String.eqb i1 i2 then [(cb2, r1)] else [].
Proof.
  cbn zeta. split; [reflexivity|]. split; [reflexivity|].
  unfold receive. cbn. by destruct (String.eqb _ _).
Qed.

(** The same with two ids that differ, and with the responses to both
    calls arriving in the order of the calls: only the second callback is
    ever called. *)
Example two_calls_one_callback :
  let ch := post Examples.idsAB
              (post Examples.idsAB (createWorker (Resp := string)) "first" 1 [])
              "second" 2 ([] : list unit) in
  invoked (run Examples.idsAB ch
             [ Receive {| id := Examples.idsAB 0; message := "bitmap 1" |};
               Receive {| id := Examples.idsAB 1; message := "bitmap 2" |} ])
  = [(2, "bitmap 2")].
Proof. reflexivity. Qed.

(** C5 (as amended).  On a channel that was not terminated, after a call
    [post(msg, cb)] a response carrying the id of that call makes [cb] be
    called once with the response's payload, and leaves the handler of the
    call installed; a response whose id is the id of no call issued on the
    channel so far is dropped.  A channel on which no call was issued drops
    every response. *)
Theorem receive_routes_latest {Req Resp Cb Transferable : Type}
    (random : nat → string) (ch : Channel Req Resp Cb Transferable)
    (msg : Req) (cb : Cb) (tl : list Transferable) (e : Frame Resp) :
  terminated ch = false →
  let i := getUniqueId random (draws ch) in
  let ch1 := post random ch msg cb tl in
  (id e = i →
     invoked (receive ch1 e) = invoked ch ++ [(cb, message e)]
     ∧ onmessage (receive ch1 e) = Some (i, cb))
  ∧ ((∀ k, k ≤ draws ch → id e ≠ getUniqueId random k) → receive ch1 e = ch1)
  ∧ receive (createWorker (Req := Req) (Cb := Cb) (Transferable := Transferable)) e
    = createWorker.
Proof.
  intros Ht i ch1. split; [|split; [|reflexivity]].
  - intros He. subst ch1. unfold receive, post. cbn. rewrite Ht.
    fold i. rewrite He, String.eqb_refl. done.
  - intros Hne. subst ch1. unfold receive, post. cbn. rewrite Ht.
    destruct (String.eqb_spec (id e) (getUniqueId random (draws ch))) as [Heq|_]; [|done].
    by destruct (Hne (draws ch) (le_n _)).
Qed.

(** The theorem at one call on a fresh channel and its response. *)
Lemma receive_routes_latest_witness :
  let ch := createWorker (Req := string) (Transferable := unit) in
  let ch1 := post Examples.idsAB ch "request" 1 [] in
  let e := {| id := Examples.idsAB 0; message := "bitmap" |} in
  terminated ch = false
  ∧ invoked (receive ch1 e) = [(1, "bitmap")]
  ∧ onmessage (receive ch1 e) = Some (Examples.idsAB 0, 1).
Proof.
  cbn zeta. split; [reflexivity|].
  exact (proj1 (receive_routes_latest Examples.idsAB
                  (createWorker (Req := string) (Transferable := unit))
                  "request" 1 [] {| id := Examples.idsAB 0; message := "bitmap" |}
                  eq_refl) eq_refl).
Defined.

(** C5, counterexample.  One call is issued and answered.  Its handler is
    still installed afterwards, and a second frame with the same id, which
    is the id of no call still outstanding, is not dropped: the callback is
    called a second time. *)
Lemma receive_keeps_handler_counterexample :
  let ch := post Examples.idsAB (createWorker (Req := string) (Transferable := unit))
              "request" 1 [] in
  let e := {| id := Examples.idsAB 0; message := "bitmap" |} in
  invoked (receive ch e) = [(1, "bitmap")]
  ∧ onmessage (receive ch e) = Some (Examples.idsAB 0, 1)
  ∧ invoked (receive (receive ch e) e) = [(1, "bitmap"); (1, "bitmap")].
Proof. cbn zeta. repeat split; reflexivity. Qed.

(** C6.  After [terminate()], whatever happens on the channel next (calls,
    responses arriving for calls still outstanding, further terminations),
    no callback is called any more, the object URL stays revoked and the
    worker stays terminated. *)
Theorem terminate_abandons {Req Resp Cb Transferable : Type}
    (random : nat → string) (ch : Channel Req Resp Cb Transferable)
    (evs : list (Event Req Resp Cb Transferable)) :
  invoked (run random (terminate ch) evs) = invoked ch
  ∧ terminated (run random (terminate ch) evs) = true
  ∧ urlRevoked (run random (terminate ch) evs) = true.
Proof.
  destruct (run_terminated random evs (terminate ch) eq_refl eq_refl)
    as (Ht & Hu & Hi).
  by rewrite Hi.
Qed.

(** A call is outstanding when the channel is terminated; its response
    arrives afterwards and is not delivered. *)
Example terminate_with_outstanding_call :
  let ch := post Examples.idsAB (createWorker (Resp := string)) "request" 1
              ([] : list unit) in
  invoked (run Examples.idsAB ch
             [ Terminate; Receive {| id := Examples.idsAB 0; message := "bitmap" |} ])
  = [].
Proof. reflexivity. Qed.

(** C9 (as amended).  For a request whose file decodes, the bitmap worker
    posts exactly one frame: it carries the id of the request and the
    bitmap, and lists the bitmap as transferable.  For a request whose file
    does not decode it posts nothing. *)
Theorem BitmapWorker_response (ImageBitmap : Type)
    (createImageBitmap : File → option ImageBitmap) (e : Frame BitmapRequest) :
  match createImageBitmap (file (message e)) with
  | Some bitmap =>
      BitmapWorker ImageBitmap createImageBitmap e
      = [({| id := id e; message := bitmap |}, [bitmap])]
  | None => BitmapWorker ImageBitmap createImageBitmap e = []
  end.
Proof. unfold BitmapWorker. by destruct (createImageBitmap _). Qed.

(** C9, counterexample.  A request carrying a text file gets no response. *)
Lemma BitmapWorker_no_response_counterexample :
  Examples.decodeImages Examples.notes = None
  ∧ BitmapWorker nat Examples.decodeImages
      {| id := Examples.idsAB 0; message := {| file := Examples.notes |} |} = [].
Proof. split; reflexivity. Qed.

(** An image file is answered under the id of its request. *)
Example BitmapWorker_image :
  BitmapWorker nat Examples.decodeImages
    {| id := Examples.idsAB 0; message := {| file := Examples.fileA |} |}
  = [({| id := Examples.idsAB 0; message := 1 |}, [1])].
Proof. reflexivity. Qed.

(** ** Further properties of the drop path *)

(** X4.  [handleDrop] first cancels the default of the event and then
    calls [onDrop], [onDropAccepted], [onDropRejected] in this order, each
    at most once. *)
Theorem handleDrop_callback_order (matches : string → File → bool) p st ev :
  let r := filterValidFiles matches p ev in
  let errors :=
    getValidationErrors matches (rejected r) (accept p) (minFileSize p) (maxFileSize p) in
  (∃ calls, snd (handleDrop matches p st ev) = CancelDefaultEvent :: calls)
  ∧ snd (handleDrop matches p st ev)
    `sublist_of` [ CancelDefaultEvent;
                   OnDrop (eventFiles ev) (accepted r) (rejected r) errors;
                   OnDropAccepted (accepted r);
                   OnDropRejected (rejected r) ].
Proof.
  intros r errors.
  destruct (disabled p) eqn:Hd.
  - unfold handleDrop. rewrite Hd. cbn [snd].
    split; [by eexists|]. repeat constructor.
  - rewrite (handleDrop_enabled matches p st ev Hd). cbn [snd]. fold r errors.
    split; [by eexists|].
    destruct (onDrop p), (nonEmpty (accepted r) && onDropAccepted p),
      (nonEmpty (rejected r) && onDropRejected p); cbn; repeat constructor.
Qed.

(** X5.  A drop (or a change of the input) that carries no file, on a zone
    that is not disabled: [onDrop], if handed in, is called with four
    empty lists, and neither [onDropAccepted] nor [onDropRejected] is
    called, whatever the other props are. *)
Theorem handleDrop_no_files (matches : string → File → bool) p st ev :
  disabled p = false →
  eventFiles ev = [] →
  snd (handleDrop matches p st ev)
  = CancelDefaultEvent :: when (onDrop p) (OnDrop [] [] [] []).
Proof.
  intros Hd Hev. rewrite (handleDrop_enabled matches p st ev Hd). cbn zeta.
  unfold filterValidFiles, getAllDragedFiles. rewrite Hev. cbn.
  destruct (allowMultiple p); cbn; by rewrite app_nil_r.
Qed.

(** The theorem at the default props with the callbacks handed in. *)
Lemma handleDrop_no_files_witness :
  snd (handleDrop Examples.exactMime Examples.defaultProps Examples.draggingState
         {| eventFiles := [] |})
  = [CancelDefaultEvent; OnDrop [] [] [] []].
Proof.
  exact (handleDrop_no_files Examples.exactMime Examples.defaultProps
           Examples.draggingState {| eventFiles := [] |} eq_refl eq_refl).
Defined.

(** With [allowMultiple] false at most one file is accepted. *)
Lemma filterValidFiles_single (matches : string → File → bool) p ev :
  allowMultiple p = false →
  length (accepted (filterValidFiles matches p ev)) ≤ 1.
Proof.
  intros Hm. unfold filterValidFiles. rewrite Hm.
  destruct (acceptedFiles _); cbn; lia.
Qed.

(** X7.  Turning [allowMultiple] off changes the result of
    [filterValidFiles] in one way only: the accepted files after the first
    move, in their order, to the end of the rejected list. *)
Theorem allowMultiple_off_moves_surplus (matches : string → File → bool) p ev :
  let many := filterValidFiles matches (withAllowMultiple true p) ev in
  let one := filterValidFiles matches (withAllowMultiple false p) ev in
  files one = files many
  ∧ accepted one = take 1 (accepted many)
  ∧ rejected one = rejected many ++ drop 1 (accepted many)
  ∧ (length (accepted many) ≤ 1 → accepted one = accepted many
                                   ∧ rejected one = rejected many).
Proof.
  cbn zeta. unfold filterValidFiles, getAllDragedFiles. cbn.
  destruct (acceptedFiles _) as [|a [|b rest]]; cbn;
    rewrite ?app_nil_r, ?drop_0; repeat split; try done; cbn; lia.
Qed.

(** ** Further properties of the worker channel: runs of events *)

Section ChannelRuns.

Context {Req Resp Cb Transferable : Type}.
Variable random : nat → string.

Local Abbreviation Chan := (Channel Req Resp Cb Transferable).
Local Abbreviation Ev := (Event Req Resp Cb Transferable).

Lemma run_step (ch : Chan) (ev : Ev) (evs : list Ev) :
  run random ch (ev :: evs) = run random (step random ch ev) evs.
Proof. reflexivity. Qed.

(** What a response does to a channel. *)
Lemma receive_cases (ch : Chan) (e : Frame Resp) :
  onmessage (receive ch e) = onmessage ch
  ∧ posted (receive ch e) = posted ch
  ∧ draws (receive ch e) = draws ch
  ∧ terminated (receive ch e) = terminated ch
  ∧ (invoked (receive ch e) = invoked ch
     ∨ ∃ i cb, onmessage ch = Some (i, cb)
               ∧ invoked (receive ch e) = invoked ch ++ [(cb, message e)]).
Proof.
  unfold receive. destruct (terminated ch) eqn:Ht; [by auto 6|].
  destruct (onmessage ch) as [[i cb]|] eqn:Hh; [|by auto 6].
  destruct (String.eqb (id e) i); cbn; [|by auto 6].
  repeat split; try done. right. by exists i, cb.
Qed.

(** Where the calls of callbacks in a run come from. *)
Lemma run_invoked_origin (evs : list Ev) (ch : Chan) cb r :
  (cb, r) ∈ invoked (run random ch evs) →
  (cb, r) ∈ invoked ch
  ∨ ((∃ i, onmessage ch = Some (i, cb)) ∨ (∃ msg tl, Post msg cb tl ∈ evs))
    ∧ ∃ e, Receive e ∈ evs ∧ message e = r.
Proof.
  revert ch. induction evs as [|ev evs IH]; intros ch Hin; [by left|].
  rewrite run_step in Hin. apply IH in Hin as [Hin|[Hcb (e & He & Hr)]].
  - destruct ev as [msg cb' tl|msg cb'|e|]; cbn in Hin; try by left.
    destruct (receive_cases ch e) as (_ & _ & _ & _ & [Hi|(i & cb0 & Hh & Hi)]);
      rewrite Hi in Hin; [by left|].
    apply elem_of_app in Hin as [Hin|Hin%list_elem_of_singleton]; [by left|].
    injection Hin as -> ->. right. split; [left; by exists i|].
    exists e. split; [apply elem_of_cons; by left|done].
  - right. split.
    + destruct Hcb as [(i & Hh)|(msg & tl & Hp)].
      * destruct ev as [msg cb' tl|msg cb'|e0|]; cbn in Hh.
        -- injection Hh as _ ->. right. exists msg, tl. apply elem_of_cons. by left.
        -- left. by exists i.
        -- destruct (receive_cases ch e0) as (Hsame & _). rewrite Hsame in Hh.
           left. by exists i.
        -- left. by exists i.
      * right. exists msg, tl. apply elem_of_cons. by right.
    + exists e. split; [apply elem_of_cons; by right|done].
Qed.

(** The payloads handed to callbacks in a run, against the payloads
    received. *)
Lemma run_invoked_payloads (evs : list Ev) (ch : Chan) :
  ∃ calls, invoked (run random ch evs) = invoked ch ++ calls
           ∧ map snd calls `sublist_of` map message (responses evs).
Proof.
  revert ch. induction evs as [|ev evs IH]; intros ch.
  - exists []. by rewrite app_nil_r.
  - rewrite run_step. destruct (IH (step random ch ev)) as (calls & Hi & Hs).
    destruct ev as [msg cb tl|msg cb|e|]; cbn [step] in *;
      try (by exists calls).
    unfold responses. cbn [omap list_omap map]. fold (responses evs).
    destruct (receive_cases ch e) as (_ & _ & _ & _ & [Hr|(i & cb & _ & Hr)]);
      rewrite Hr in Hi.
    + exists calls. split; [done|]. by apply sublist_cons.
    + exists ((cb, message e) :: calls). split.
      * by rewrite Hi, <- (assoc_L (++)).
      * cbn. by apply sublist_skip.
Qed.

(** The requests sent in a run. *)
Lemma run_posted (evs : list Ev) (ch : Chan) :
  posted (run random ch evs)
  = posted ch
    ++ imap (λ k mt, ({| id := getUniqueId random (draws ch + k); message := fst mt |},
                      snd mt)) (posts evs)
  ∧ draws (run random ch evs) = draws ch + length (posts evs).
Proof.
  revert ch. induction evs as [|ev evs IH]; intros ch.
  - cbn. by rewrite app_nil_r, Nat.add_0_r.
  - rewrite run_step. destruct (IH (step random ch ev)) as [Hp Hd].
    rewrite Hp, Hd.
    destruct ev as [msg cb tl|msg cb|e|]; cbn [step]; try done.
    + unfold posts. cbn [omap list_omap]. fold (posts evs).
      cbn [post posted draws imap length fst snd].
      rewrite Nat.add_0_r, <- (assoc_L (++)). split; [|lia].
      f_equal. cbn [app]. f_equal.
      apply imap_ext. intros k mt _. cbn. do 3 f_equal. lia.
    + destruct (receive_cases ch e) as (_ & -> & -> & _). done.
Qed.

(** One call answered under its own id, on a live channel. *)
Lemma exchange_invoked (ch : Chan) msg cb r :
  terminated ch = false →
  let ch' := receive (post random ch msg cb [])
               {| id := getUniqueId random (draws ch); message := r |} in
  invoked ch' = invoked ch ++ [(cb, r)]
  ∧ draws ch' = S (draws ch)
  ∧ terminated ch' = false.
Proof.
  intros Ht. cbn zeta. unfold receive, post. cbn. rewrite Ht.
  by rewrite String.eqb_refl.
Qed.

End ChannelRuns.

(** X8.  Used one call at a time, the channel works: if every call is
    answered, under the id it was posted with, before the next call is
    made, then each callback is called exactly once, with the response to
    its own call, in the order of the calls, whatever ids are drawn (also
    when ids repeat). *)
Theorem sequential_calls_answered {Req Resp Cb Transferable : Type}
    (random : nat → string) (ch : Channel Req Resp Cb Transferable)
    (calls : list (Req * Cb * Resp)) :
  terminated ch = false →
  invoked (run random ch (sequential random (draws ch) calls))
  = invoked ch ++ map (λ c, (snd (fst c), snd c)) calls.
Proof.
  revert ch. induction calls as [|[[msg cb] r] calls IH]; intros ch Ht.
  - cbn. by rewrite app_nil_r.
  - cbn [sequential]. rewrite !run_step. cbn [step].
    destruct (exchange_invoked random ch msg cb r Ht) as (Hi & Hd & Ht').
    rewrite <- Hd, IH by done. rewrite Hi. cbn. by rewrite <- (assoc_L (++)).
Qed.

(** The theorem at three calls on a fresh channel whose ids are all the
    same. *)
Lemma sequential_calls_answered_witness :
  invoked (run (λ _, "same") (createWorker (Transferable := unit))
             (sequential (λ _, "same") 0
                [("m1", 1, "r1"); ("m2", 2, "r2"); ("m3", 3, "r3")]))
  = [(1, "r1"); (2, "r2"); (3, "r3")].
Proof.
  exact (sequential_calls_answered (λ _, "same") (createWorker (Transferable := unit))
           [("m1", 1, "r1"); ("m2", 2, "r2"); ("m3", 3, "r3")] eq_refl).
Defined.

(** X9.  On a channel created by [createWorker], whatever happens, a
    callback is only ever called if it was handed to [post] (never one
    handed to [transfer] only), and only with the payload of a frame that
    arrived. *)
Theorem callbacks_come_from_post {Req Resp Cb Transferable : Type}
    (random : nat → string) (evs : list (Event Req Resp Cb Transferable)) :
  Forall (λ call, (∃ msg tl, Post msg (fst call) tl ∈ evs)
                  ∧ ∃ e, Receive e ∈ evs ∧ message e = snd call)
    (invoked (run random createWorker evs)).
Proof.
  apply Forall_forall. intros [cb r] Hin.
  apply run_invoked_origin in Hin as [Hin|[[(i & Hh)|Hp] He]].
  - cbn in Hin. by apply elem_of_nil in Hin.
  - discriminate Hh.
  - done.
Qed.

(** X10.  A response leads to at most one call of a callback, and payloads
    are passed on unchanged and in order: the payloads the callbacks were
    called with are a subsequence of the payloads of the frames that
    arrived. *)
Theorem payloads_subsequence_of_responses {Req Resp Cb Transferable : Type}
    (random : nat → string) (evs : list (Event Req Resp Cb Transferable)) :
  map snd (invoked (run random createWorker evs))
    `sublist_of` map message (responses evs)
  ∧ length (invoked (run random createWorker evs)) ≤ length (responses evs).
Proof.
  destruct (run_invoked_payloads random evs createWorker) as (calls & Hi & Hs).
  cbn in Hi. rewrite Hi. split; [done|].
  apply sublist_length in Hs. by rewrite !length_map in Hs.
Qed.

(** X11.  Every [post], and nothing else, sends one request frame: after
    any run on a fresh channel the frames posted to the worker are the
    messages of the calls, in order, each with its transfer list and with
    the id drawn for it, the [k]-th call getting the [k]-th id. *)
Theorem posted_frames {Req Resp Cb Transferable : Type}
    (random : nat → string) (evs : list (Event Req Resp Cb Transferable)) :
  posted (run random createWorker evs)
  = imap (λ k mt, ({| id := getUniqueId random k; message := fst mt |}, snd mt))
      (posts evs)
  ∧ draws (run random createWorker evs) = length (posts evs).
Proof.
  destruct (run_posted random evs createWorker) as [Hp Hd].
  rewrite Hp, Hd. done.
Qed.

(** X13.  One decode through the channel.  On a live channel, [post] of a
    file sends a request under a fresh id; when the bitmap worker handles
    that request and what it posts arrives at the channel, the callback is
    called once with the bitmap if the file decodes, and is not called at
    all if it does not. *)
Theorem bitmap_round_trip {Cb Transferable : Type} (ImageBitmap : Type)
    (createImageBitmap : File → option ImageBitmap) (random : nat → string)
    (ch : Channel BitmapRequest ImageBitmap Cb Transferable)
    (f : File) (cb : Cb) (tl : list Transferable) :
  terminated ch = false →
  let ch1 := post random ch {| file := f |} cb tl in
  let request := {| id := getUniqueId random (draws ch); message := {| file := f |} |} in
  last (posted ch1) = Some (request, tl)
  ∧ invoked (receiveAll ch1 (BitmapWorker ImageBitmap createImageBitmap request))
    = invoked ch ++ match createImageBitmap f with
                    | Some bitmap => [(cb, bitmap)]
                    | None => []
                    end.
Proof.
  intros Ht. cbn zeta. split.
  - cbn. by rewrite last_snoc.
  - unfold BitmapWorker, receiveAll. cbn.
    destruct (createImageBitmap f) as [bitmap|]; cbn.
    + unfold receive. cbn. rewrite Ht. by rewrite String.eqb_refl.
    + by rewrite app_nil_r.
Qed.

(** The theorem at an image file and at a text file. *)
Lemma bitmap_round_trip_witness :
  let ch := createWorker (Req := BitmapRequest) (Resp := nat) (Transferable := unit) in
  let request f := {| id := Examples.idsAB 0; message := {| file := f |} |} in
  invoked (receiveAll (post Examples.idsAB ch {| file := Examples.fileA |} 7 [])
             (BitmapWorker nat Examples.decodeImages (request Examples.fileA)))
  = [(7, 1)]
  ∧ invoked (receiveAll (post Examples.idsAB ch {| file := Examples.notes |} 7 [])
               (BitmapWorker nat Examples.decodeImages (request Examples.notes)))
    = [].
Proof.
  cbn zeta. split.
  - exact (proj2 (bitmap_round_trip nat Examples.decodeImages Examples.idsAB
                    (createWorker (Req := BitmapRequest) (Resp := nat)
                       (Transferable := unit))
                    Examples.fileA 7 [] eq_refl)).
  - exact (proj2 (bitmap_round_trip nat Examples.decodeImages Examples.idsAB
                    (createWorker (Req := BitmapRequest) (Resp := nat)
                       (Transferable := unit))
                    Examples.notes 7 [] eq_refl)).
Defined.

(** ** The mounted zone: runs of renders and events *)

Section MountedRuns.

Variable matches : string → File → bool.

(** A handler created in a render that closes over the [filterValidFiles]
    of the same render is the handler of that render. *)
Lemma handleDropOf_same p st e :
  handleDropOf matches p p st e = handleDrop matches p st e.
Proof. reflexivity. Qed.

Lemma handleDragEnterOf_same p st e :
  handleDragEnterOf matches p p st e = handleDragEnter matches p st e.
Proof. reflexivity. Qed.

Lemma runUI_cons c s steps :
  runUI matches c (s :: steps)
  = (fst (runUI matches (fst (stepUI matches c s)) steps),
     snd (stepUI matches c s) ++ snd (runUI matches (fst (stepUI matches c s)) steps)).
Proof. reflexivity. Qed.

Lemma runUI_app c steps1 steps2 :
  runUI matches c (steps1 ++ steps2)
  = (fst (runUI matches (fst (runUI matches c steps1)) steps2),
     snd (runUI matches c steps1)
       ++ snd (runUI matches (fst (runUI matches c steps1)) steps2)).
Proof.
  revert c. induction steps1 as [|s steps1 IH]; intros c.
  - cbn [app runUI fst snd]. by destruct (runUI matches c steps2).
  - rewrite <- app_comm_cons, !runUI_cons, IH. cbn [fst snd].
    by rewrite (assoc_L (++)).
Qed.

(** The state after a step. *)
Lemma stepUI_ui c s :
  ui (fst (stepUI matches c s))
  = match s with
    | Rerender _ => ui c
    | Happens ev => fst (dispatch matches (memo c) (ui c) ev)
    end.
Proof. by destruct s. Qed.

Lemma stepUI_trace c s :
  snd (stepUI matches c s)
  = match s with
    | Rerender _ => []
    | Happens ev => snd (dispatch matches (memo c) (ui c) ev)
    end.
Proof. by destruct s. Qed.

(** *** What a render keeps *)

Lemma render_zone m st r :
  zoneEnterOf (render m st r) = zoneEnterOf m
  ∧ zoneLeaveOf (render m st r) = zoneLeaveOf m.
Proof. done. Qed.

(** After a render every memoised handler has the dependencies of that
    render. *)
Lemma render_deps m st r :
  filterDeps (filterOf (render m st r)) = filterDeps r
  ∧ dropDeps (snd (dropOf (render m st r))) = dropDeps r
  ∧ disabled (props (snd (fst (dragEnterOf (render m st r))))) = disabled (props r)
  ∧ dragLeaveDeps (dragLeaveOf (render m st r)) = dragLeaveDeps r
  ∧ dragOverDeps (dragOverOf (render m st r)) = dragOverDeps r
  ∧ latest (render m st r) = r.
Proof.
  unfold render, useCallback. cbn.
  repeat split; try done; case_decide as Hd; cbn; try done.
  by injection Hd as -> _ _.
Qed.

Lemma render_inSync m st r : inSync (render m st r).
Proof.
  destruct (render_deps m st r) as (_ & H1 & H2 & H3 & H4 & H5).
  unfold inSync. by rewrite H1, H2, H3, H4, H5.
Qed.

Lemma runUI_inSync c steps :
  inSync (memo c) → inSync (memo (fst (runUI matches c steps))).
Proof.
  revert c. induction steps as [|s steps IH]; intros c Hc; [done|].
  rewrite runUI_cons. cbn [fst]. apply IH.
  destruct s; cbn; apply render_inSync.
Qed.

Lemma mount_inSync r : inSync (mount r).
Proof. by repeat split. Qed.

(** The two zone handlers are those of the first render. *)
Lemma runUI_zone c steps :
  zoneEnterOf (memo (fst (runUI matches c steps))) = zoneEnterOf (memo c)
  ∧ zoneLeaveOf (memo (fst (runUI matches c steps))) = zoneLeaveOf (memo c).
Proof.
  revert c. induction steps as [|s steps IH]; intros c; [done|].
  rewrite runUI_cons. cbn [fst].
  destruct (IH (fst (stepUI matches c s))) as [-> ->]. by destruct s.
Qed.

(** *** One event, whatever the handlers close over *)

Ltac unfold_handlers :=
  unfold lift, handleDropOf, handleDragEnterOf, handleDragLeave, handleDragOver,
    handleDragEnterDropZone, handleDragLeaveDropZone, handleClick.

Lemma dispatch_errorConsistent m st ev :
  errorConsistent st → errorConsistent (fst (dispatch matches m st ev)).
Proof.
  unfold errorConsistent. intros Hst.
  destruct ev; cbn [dispatch]; unfold_handlers;
    repeat match goal with
           | |- context [if disabled ?p then _ else _] => destruct (disabled p)
           end; cbn; try done.
  - destruct (nonEmpty (rejected _)) eqn:E; [|done].
    intros [? _]%Hst. split; [done|]. by apply nonEmpty_true.
  - destruct (nonEmpty (draggedRejectedFiles st)) eqn:E.
    + intros _. split; [done|]. by apply nonEmpty_true.
    + intros [_ ?]%Hst. done.
  - by destruct toChild.
Qed.

Lemma dispatch_keeps_rejected m st ev :
  isDrop ev = false →
  draggedRejectedFiles st ≠ [] →
  draggedRejectedFiles (fst (dispatch matches m st ev)) ≠ [].
Proof.
  intros Hev Hst.
  destruct ev; try discriminate Hev; cbn [dispatch]; unfold_handlers;
    repeat match goal with
           | |- context [if disabled ?p then _ else _] => destruct (disabled p)
           end; cbn; try done.
  - destruct (nonEmpty (rejected _)) eqn:E; [|done]. by apply nonEmpty_true.
  - by destruct toChild.
Qed.

(** An event that is not a drop calls none of the drop callbacks. *)
Lemma dispatch_other_effects m st ev :
  isDrop ev = false →
  Forall (λ a, ∀ e, a = inl e → e = CancelDefaultEvent ∨ e = OnDragEnter)
    (snd (dispatch matches m st ev)).
Proof.
  intros Hev.
  destruct ev; try discriminate Hev; cbn [dispatch]; unfold_handlers;
    unfold whenOther, when;
    repeat match goal with
           | |- context [if ?b then _ else _] => destruct b
           end;
    cbn [snd fst map app];
    repeat (apply List.Forall_cons); try apply List.Forall_nil;
    intros e' He; first [discriminate He | injection He as <-; auto].
Qed.

(** What [handleDropOf] does when its render was not disabled. *)
Lemma handleDropOf_enabled pf p st ev :
  disabled p = false →
  let r := filterValidFiles matches pf ev in
  let errors :=
    getValidationErrors matches (rejected r) (accept p) (minFileSize p) (maxFileSize p) in
  handleDropOf matches pf p st ev
  = (initialState,
     CancelDefaultEvent
       :: when (onDrop p) (OnDrop (eventFiles ev) (accepted r) (rejected r) errors)
       ++ when (nonEmpty (accepted r) && onDropAccepted p) (OnDropAccepted (accepted r))
       ++ when (nonEmpty (rejected r) && onDropRejected p) (OnDropRejected (rejected r))).
Proof.
  intros Hd r errors. unfold handleDropOf. rewrite Hd. fold r errors.
  assert (files r = eventFiles ev) as ->
    by apply (filterValidFiles_unfold matches pf ev).
  reflexivity.
Qed.

(** The drop callbacks of a drop whose [filterValidFiles] was created with
    [allowMultiple] false. *)
Lemma handleDropOf_single pf p st e :
  allowMultiple pf = false →
  (∀ all acc rej errs,
      inl (OnDrop all acc rej errs) ∈ snd (lift (handleDropOf matches pf p st e)) →
      length acc ≤ 1)
  ∧ (∀ acc, inl (OnDropAccepted acc) ∈ snd (lift (handleDropOf matches pf p st e)) →
            length acc = 1).
Proof.
  intros Hm. pose proof (filterValidFiles_single matches pf e Hm) as Hle.
  unfold lift. cbn [snd].
  destruct (disabled p) eqn:Hd.
  - unfold handleDropOf. rewrite Hd. cbn.
    split; intros *; rewrite list_elem_of_singleton; discriminate.
  - rewrite (handleDropOf_enabled pf p st e Hd). cbn [snd].
    set (r := filterValidFiles matches pf e) in *.
    split; intros *; rewrite list_elem_of_In, in_map_iff;
      intros (a & Ha & Hin%list_elem_of_In);
      rewrite elem_of_cons, !elem_of_app, !elem_of_when in Hin;
      destruct Hin as [->|[[_ ->]|[[Hne ->]|[_ ->]]]]; try discriminate Ha.
    + by injection Ha as <- <- <- <-.
    + injection Ha as <-.
      apply andb_true_iff in Hne as [Hne _].
      destruct (accepted r) as [|? [|? ?]]; cbn in *; try done; lia.
Qed.

(** *** Invariants of runs *)

Lemma render_allDisabled m st r :
  allDisabled m → disabled (props r) = true → allDisabled (render m st r).
Proof.
  intros (H1 & H2 & H3 & H4 & H5 & H6 & H7) Hr.
  unfold allDisabled, render, useCallback. cbn.
  repeat split; try done; case_decide; done.
Qed.

Lemma dispatch_allDisabled m st ev :
  allDisabled m →
  fst (dispatch matches m st ev) = st
  ∧ Forall (λ a, a = inl CancelDefaultEvent) (snd (dispatch matches m st ev)).
Proof.
  intros (H1 & H2 & H3 & H4 & H5 & H6 & H7).
  destruct ev; cbn [dispatch]; unfold_handlers;
    rewrite ?H1, ?H2, ?H3, ?H4, ?H5, ?H6, ?H7; cbn;
    split; try done; repeat constructor.
Qed.

Lemma render_allSingle m st r :
  allSingle m → allowMultiple (props r) = false → allSingle (render m st r).
Proof.
  intros (H1 & H2 & H3) Hr. unfold allSingle, render, useCallback. cbn.
  repeat split; repeat case_decide; done.
Qed.

End MountedRuns.

(** X1.  A zone that is disabled in its first render and in every later
    one is inert: whatever events arrive in between, in whatever order,
    the component state stays the initial one, and the only thing any
    handler does is cancel the default of its event; no callback of the
    props is called and the file input is not clicked. *)
Theorem disabled_zone_inert (matches : string → File → bool) r0 steps :
  disabled (props r0) = true →
  Forall (λ s, rendersDisabled s = true) steps →
  ui (fst (runUI matches (mounted r0) steps)) = initialState
  ∧ Forall (λ a, a = inl CancelDefaultEvent) (snd (runUI matches (mounted r0) steps)).
Proof.
  intros Hd Hsteps.
  assert (H : ∀ c, allDisabled (memo c) →
                ui (fst (runUI matches c steps)) = ui c
                ∧ Forall (λ a, a = inl CancelDefaultEvent)
                    (snd (runUI matches c steps))).
  { induction Hsteps as [|s steps Hs _ IH]; intros c Hc.
    - split; [done|constructor].
    - rewrite runUI_cons. cbn [fst snd].
      destruct s as [r|ev]; cbn [rendersDisabled] in Hs.
      + destruct (IH (fst (stepUI matches c (Rerender r)))) as [Hu Ht].
        { cbn. by apply render_allDisabled. }
        split; [by rewrite Hu|done].
      + destruct (dispatch_allDisabled matches (memo c) (ui c) ev Hc) as [He Ht].
        destruct (IH (fst (stepUI matches c (Happens ev)))) as [Hu Hts].
        { cbn. apply render_allDisabled; [done|]. apply Hc. }
        split.
        * rewrite Hu. cbn. done.
        * cbn [stepUI snd]. by apply Forall_app. }
  apply (H (mounted r0)). by repeat split.
Qed.

(** The theorem at a drag of a file over a disabled zone, a render, a drop
    and a click. *)
Lemma disabled_zone_inert_witness :
  let steps := [ Happens (DocDragEnter {| eventFiles := [Examples.fileC] |});
                 Happens ZoneDragEnter; Happens DocDragOver;
                 Rerender (Examples.renderOf Examples.disabledProps);
                 Happens (DocDrop {| eventFiles := [Examples.fileC] |});
                 Happens (ZoneClick true) ] in
  disabled Examples.disabledProps = true
  ∧ ui (fst (runUI Examples.exactMime
               (mounted (Examples.renderOf Examples.disabledProps)) steps))
    = initialState.
Proof.
  cbn zeta. split; [reflexivity|].
  refine (proj1 (disabled_zone_inert Examples.exactMime
                   (Examples.renderOf Examples.disabledProps) _ eq_refl _)).
  repeat constructor.
Defined.

(** The zone handlers are those of the first render: on a zone mounted
    enabled and rendered disabled afterwards, entering the zone still sets
    the drag-enter flag. *)
Example zone_handlers_keep_first_disabled :
  dragEnter (ui (fst (runUI Examples.exactMime
                        (mounted (Examples.renderOf Examples.defaultProps))
                        [ Rerender (Examples.renderOf Examples.disabledProps);
                          Happens ZoneDragEnter ])))
  = true.
Proof. reflexivity. Qed.

(** X2.  Whatever the component is given in its renders and whatever
    events arrive in between, the error flag is set only while the
    drag-enter flag is set and some dragged file is on record as
    rejected. *)
Theorem hasError_only_during_rejected_drag (matches : string → File → bool)
    r0 steps :
  errorConsistent (ui (fst (runUI matches (mounted r0) steps))).
Proof.
  assert (H : ∀ c, errorConsistent (ui c) →
                errorConsistent (ui (fst (runUI matches c steps)))).
  { induction steps as [|s steps IH]; intros c Hc; [done|].
    rewrite runUI_cons. cbn [fst]. apply IH. rewrite stepUI_ui.
    destruct s; [done|]. by apply dispatch_errorConsistent. }
  apply H. intros Hf. discriminate Hf.
Qed.

(** X3.  The record of rejected files is cleared by a drop only.  Once a
    drag had a rejected file, after any renders and any events other than
    a drop the record is still there; and on a zone whose first render was
    not disabled, entering the zone then sets the error flag, also when
    the files dragged last were all valid. *)
Theorem rejected_record_outlives_drag (matches : string → File → bool)
    r0 before after :
  disabled (props r0) = false →
  draggedRejectedFiles (ui (fst (runUI matches (mounted r0) before))) ≠ [] →
  Forall (λ s, isDropStep s = false) after →
  draggedRejectedFiles
    (ui (fst (runUI matches (fst (runUI matches (mounted r0) before)) after))) ≠ []
  ∧ hasError
      (ui (fst (runUI matches (fst (runUI matches (mounted r0) before))
                  (after ++ [Happens ZoneDragEnter])))) = true.
Proof.
  intros Hd. set (c0 := fst (runUI matches (mounted r0) before)).
  intros Hc0 Hafter.
  assert (Hz : zoneEnterOf (memo c0) = r0)
    by apply (runUI_zone matches (mounted r0) before).
  assert (H : draggedRejectedFiles (ui (fst (runUI matches c0 after))) ≠ []).
  { clearbody c0. clear Hz. revert c0 Hc0.
    induction Hafter as [|s steps Hs _ IH]; intros c Hc; [done|].
    rewrite runUI_cons. cbn [fst]. apply IH. rewrite stepUI_ui.
    destruct s; [done|]. by apply dispatch_keeps_rejected. }
  split; [done|].
  rewrite runUI_app. cbn [fst runUI stepUI ui dispatch lift snd].
  destruct (runUI_zone matches c0 after) as [-> _]. rewrite Hz.
  unfold handleDragEnterDropZone. rewrite Hd. cbn.
  apply nonEmpty_true in H. by rewrite H.
Qed.

(** The theorem at: an oversized file is dragged in and out again, the
    zone is rendered disabled, then a valid file is dragged in. *)
Lemma rejected_record_outlives_drag_witness :
  let r0 := Examples.renderOf Examples.singleProps in
  let before := [ Happens (DocDragEnter {| eventFiles := [Examples.fileC] |}) ] in
  let after := [ Happens ZoneDragEnter; Happens (ZoneDragLeave false);
                 Rerender (Examples.renderOf Examples.disabledProps);
                 Rerender (Examples.renderOf Examples.singleProps);
                 Happens (DocDragEnter {| eventFiles := [Examples.fileA] |}) ] in
  rejected (filterValidFiles Examples.exactMime Examples.singleProps
              {| eventFiles := [Examples.fileA] |}) = []
  ∧ hasError
      (ui (fst (runUI Examples.exactMime
                  (fst (runUI Examples.exactMime (mounted r0) before))
                  (after ++ [Happens ZoneDragEnter])))) = true.
Proof.
  cbn zeta. split; [reflexivity|].
  refine (proj2 (rejected_record_outlives_drag Examples.exactMime
                   (Examples.renderOf Examples.singleProps)
                   [ Happens (DocDragEnter {| eventFiles := [Examples.fileC] |}) ]
                   [ Happens ZoneDragEnter; Happens (ZoneDragLeave false);
                     Rerender (Examples.renderOf Examples.disabledProps);
                     Rerender (Examples.renderOf Examples.singleProps);
                     Happens (DocDragEnter {| eventFiles := [Examples.fileA] |}) ]
                   eq_refl _ _)).
  - cbn. discriminate.
  - repeat constructor.
Defined.

(** X6.  A zone that has [allowMultiple] false in its first render and in
    every later one never hands more than one file to its callbacks as
    accepted: in every run of renders and events, every call of
    [onDropAccepted] carries exactly one file and every call of [onDrop]
    carries at most one accepted file. *)
Theorem single_zone_accepts_one (matches : string → File → bool) r0 steps :
  allowMultiple (props r0) = false →
  Forall (λ s, rendersSingle s = true) steps →
  (∀ all acc rej errs,
      inl (OnDrop all acc rej errs) ∈ snd (runUI matches (mounted r0) steps) →
      length acc ≤ 1)
  ∧ (∀ acc, inl (OnDropAccepted acc) ∈ snd (runUI matches (mounted r0) steps) →
            length acc = 1).
Proof.
  intros Hm Hsteps.
  assert (H : ∀ c, allSingle (memo c) →
    (∀ all acc rej errs,
        inl (OnDrop all acc rej errs) ∈ snd (runUI matches c steps) → length acc ≤ 1)
    ∧ (∀ acc, inl (OnDropAccepted acc) ∈ snd (runUI matches c steps) →
              length acc = 1)).
  { induction Hsteps as [|s steps Hs _ IH]; intros c Hc.
    - cbn. split; intros *; by rewrite elem_of_nil.
    - rewrite runUI_cons. cbn [snd]. rewrite stepUI_trace.
      destruct s as [r|ev]; cbn [rendersSingle] in Hs.
      + apply negb_true_iff in Hs.
        destruct (IH (fst (stepUI matches c (Rerender r)))) as [H1 H2].
        { cbn. by apply render_allSingle. }
        split; intros *; cbn [app]; eauto.
      + destruct (IH (fst (stepUI matches c (Happens ev)))) as [H1 H2].
        { cbn. apply render_allSingle; [done|]. apply Hc. }
        assert (Hev :
          (∀ all acc rej errs,
              inl (OnDrop all acc rej errs)
                ∈ snd (dispatch matches (memo c) (ui c) ev) → length acc ≤ 1)
          ∧ (∀ acc, inl (OnDropAccepted acc)
                      ∈ snd (dispatch matches (memo c) (ui c) ev) →
                    length acc = 1)).
        { destruct (isDrop ev) eqn:Hd.
          - destruct Hc as (_ & Hc & _).
            destruct ev; try discriminate Hd; cbn [dispatch];
              by apply handleDropOf_single.
          - pose proof (dispatch_other_effects matches (memo c) (ui c) ev Hd) as Hall.
            rewrite Forall_forall in Hall.
            split; intros * Hin; destruct (Hall _ Hin _ eq_refl); discriminate. }
        destruct Hev as [H3 H4].
        split; intros *; rewrite elem_of_app; intros [?|?]; eauto. }
  apply (H (mounted r0)). by repeat split.
Qed.

(** The theorem at two drops of two valid files each, with a render and a
    drag in between. *)
Lemma single_zone_accepts_one_witness :
  let two := {| eventFiles := [Examples.fileA; Examples.fileB] |} in
  let steps := [ Happens (DocDrop two);
                 Rerender (Examples.renderOf Examples.singleProps);
                 Happens (DocDragEnter two); Happens ZoneDragEnter;
                 Happens (InputChange two) ] in
  inl (OnDropAccepted [Examples.fileA])
    ∈ snd (runUI Examples.exactMime
             (mounted (Examples.renderOf Examples.singleProps)) steps)
  ∧ ∀ acc, inl (OnDropAccepted acc)
             ∈ snd (runUI Examples.exactMime
                      (mounted (Examples.renderOf Examples.singleProps)) steps) →
           length acc = 1.
Proof.
  cbn zeta. split.
  - cbn. apply elem_of_cons. right. apply elem_of_cons. right.
    apply elem_of_cons. by left.
  - refine (proj2 (single_zone_accepts_one Examples.exactMime
                     (Examples.renderOf Examples.singleProps) _ eq_refl _)).
    repeat constructor.
Defined.

(** [handleDrop] keeps the [filterValidFiles] of the render that created
    it: on a zone mounted with [allowMultiple] true and rendered again with
    [allowMultiple] false and otherwise the same props and callbacks, a
    drop of two valid files still accepts both. *)
Example handleDrop_keeps_earlier_filter :
  let single := {| accept := None; allowMultiple := false;
                   maxFileSize := None; minFileSize := None;
                   maxTotalFileSize := None;
                   disabled := false; panelLayout := integrated;
                   panelAspectRatio := None;
                   onDrop := true; onDropAccepted := true; onDropRejected := true;
                   onDragEnter := false |} in
  snd (runUI Examples.exactMime (mounted (Examples.renderOf Examples.defaultProps))
         [ Rerender (Examples.renderOf single);
           Happens (DocDrop {| eventFiles := [Examples.fileA; Examples.fileB] |}) ])
  = [ inl CancelDefaultEvent;
      inl (OnDrop [Examples.fileA; Examples.fileB] [Examples.fileA; Examples.fileB]
             [] []);
      inl (OnDropAccepted [Examples.fileA; Examples.fileB]) ].
Proof. reflexivity. Qed.

(** X14.  The drop callbacks are called by drops only: in a run of renders
    and events without a drop and without a change of the input, none of
    [onDrop], [onDropAccepted], [onDropRejected] is called; of the
    callbacks of the drop path only [onDragEnter] is. *)
Theorem drop_callbacks_need_a_drop (matches : string → File → bool) c steps :
  Forall (λ s, isDropStep s = false) steps →
  Forall (λ a, ∀ e, a = inl e → e = CancelDefaultEvent ∨ e = OnDragEnter)
    (snd (runUI matches c steps)).
Proof.
  intros Hsteps. revert c.
  induction Hsteps as [|s steps Hs _ IH]; intros c; [constructor|].
  rewrite runUI_cons. cbn [snd]. apply Forall_app. split; [|apply IH].
  rewrite stepUI_trace. destruct s; [constructor|].
  by apply dispatch_other_effects.
Qed.

(** The theorem at a drag of a rejected file into the zone and out
    again. *)
Lemma drop_callbacks_need_a_drop_witness :
  let steps := [ Happens (DocDragEnter {| eventFiles := [Examples.fileC] |});
                 Happens ZoneDragEnter; Happens DocDragOver;
                 Rerender (Examples.renderOf Examples.defaultProps);
                 Happens (ZoneDragLeave false); Happens DocDragLeave;
                 Happens (ZoneClick true) ] in
  Forall (λ a, ∀ e, a = inl e → e = CancelDefaultEvent ∨ e = OnDragEnter)
    (snd (runUI Examples.exactMime
            (mounted (Examples.renderOf Examples.singleProps)) steps)).
Proof.
  cbn zeta.
  apply (drop_callbacks_need_a_drop Examples.exactMime
           (mounted (Examples.renderOf Examples.singleProps))).
  repeat constructor.
Defined.

(** X15.  A drop on a zone whose last render was not disabled ends every
    drag: whatever the state was, whatever renders and events came before
    and whatever is dropped, after the drop both flags are off and the
    record of rejected files is empty, as in the initial state.  The
    component is one whose handlers have the dependencies of its last
    render, as they have from the first render on. *)
Theorem drop_resets_zone (matches : string → File → bool) c steps e :
  inSync (memo c) →
  disabled (props (latest (memo (fst (runUI matches c steps))))) = false →
  ui (fst (runUI matches c (steps ++ [Happens (DocDrop e)]))) = initialState
  ∧ ui (fst (runUI matches c (steps ++ [Happens (InputChange e)]))) = initialState.
Proof.
  intros Hc Hd.
  destruct (runUI_inSync matches c steps Hc) as (Hsync & _).
  assert (Hdrop : disabled (props (snd (dropOf
                    (memo (fst (runUI matches c steps)))))) = false).
  { injection Hsync as Hs _ _ _ _. by rewrite Hs. }
  rewrite !runUI_app. cbn [fst runUI stepUI ui dispatch lift].
  by rewrite !(handleDropOf_enabled matches _ _ _ e Hdrop).
Qed.

(** The theorem after a drag of a rejected file into the zone, on a zone
    mounted disabled and rendered enabled since. *)
Lemma drop_resets_zone_witness :
  let steps := [ Rerender (Examples.renderOf Examples.singleProps);
                 Happens (DocDragEnter {| eventFiles := [Examples.fileC] |}) ] in
  draggedRejectedFiles
    (ui (fst (runUI Examples.exactMime
                (mounted (Examples.renderOf Examples.disabledProps)) steps)))
    = [Examples.fileC]
  ∧ ui (fst (runUI Examples.exactMime
               (mounted (Examples.renderOf Examples.disabledProps))
               (steps ++ [Happens (DocDrop {| eventFiles := [Examples.fileA] |})])))
    = initialState.
Proof.
  cbn zeta. split; [reflexivity|].
  exact (proj1 (drop_resets_zone Examples.exactMime
                  (mounted (Examples.renderOf Examples.disabledProps))
                  [ Rerender (Examples.renderOf Examples.singleProps);
                    Happens (DocDragEnter {| eventFiles := [Examples.fileC] |}) ]
                  {| eventFiles := [Examples.fileA] |}
                  (mount_inSync (Examples.renderOf Examples.disabledProps))
                  eq_refl)).
Defined.
